(** * check_invisible_chars: a shallow embedding of the scanner

    The development follows [scripts/check_invisible_chars.py].  Python
    strings are lists of code points, [bytes] are lists of [byte], [int] is
    [Z], and a call that may raise returns a [result].  The parts of the
    interpreter's library the script calls ([str.splitlines], [shlex.split],
    [re], [int], the [unicode_escape] codec) are modelled in [Module Py];
    the Unicode character database and the UTF-8 decoder are taken as
    given through the class [Py.Library], the file system and the [git]
    subprocess through the class [World]. *)

From Stdlib Require Import String Ascii DecimalString HexadecimalString.
From Stdlib.Strings Require Import Byte.
From Stdlib Require Import Uint63 Floats.
From Stdlib Require Import ZArith NArith QArith List Bool Lia.
Import ListNotations.
Open Scope Z_scope.

(** ** The Python library, as far as the script uses it *)

Module Py.

(** A character is its code point; a [str] is the list of its characters. *)
Definition char := N.
Definition str := list char.

Definition lit (s : string) : str := map N_of_ascii (list_ascii_of_string s).
Arguments lit s%_string.

Definition ord (c : char) : Z := Z.of_N c.

Fixpoint str_eqb (a b : str) : bool :=
  match a, b with
  | [], [] => true
  | x :: a', y :: b' => N.eqb x y && str_eqb a' b'
  | _, _ => false
  end.

Definition str_in (c : char) (set : str) : bool := existsb (N.eqb c) set.

(** Exceptions the script can meet, and the result of a call. *)
Inductive exn :=
| ValueError
| ZeroDivisionError
| OSError
| RuntimeError (msg : str).

Inductive result (A : Type) :=
| Ok (a : A)
| Raise (e : exn).
Arguments Ok {A} a.
Arguments Raise {A} e.

Definition bind {A B} (r : result A) (f : A -> result B) : result B :=
  match r with
  | Ok a => f a
  | Raise e => Raise e
  end.

Notation "x <- r ;; k" := (bind r (fun x => k))
  (at level 61, r at next level, right associativity).

(** [enumerate(xs, start=...)] *)
Fixpoint enumerate {A} (xs : list A) (start : Z) : list (Z * A) :=
  match xs with
  | [] => []
  | x :: r => (start, x) :: enumerate r (start + 1)
  end.

(** [s.startswith(p)] *)
Fixpoint startswith (s p : str) : bool :=
  match p, s with
  | [], _ => true
  | c :: p', d :: s' => N.eqb c d && startswith s' p'
  | _ :: _, [] => false
  end.

(** [s[:stop]] with Python's treatment of a negative [stop]. *)
Definition slice_to {A} (s : list A) (stop : Z) : list A :=
  let n := Z.of_nat (length s) in
  let stop' := if stop <? 0 then Z.max 0 (stop + n) else Z.min stop n in
  firstn (Z.to_nat stop') s.

(** The line boundaries of [str.splitlines()]: LF, VT, FF, CR (and CR LF),
    FS, GS, RS, NEL, LINE SEPARATOR and PARAGRAPH SEPARATOR. *)
Definition is_linebreak (c : char) : bool :=
  str_in c [0x0A; 0x0B; 0x0C; 0x0D; 0x1C; 0x1D; 0x1E; 0x85; 0x2028; 0x2029]%N.

(** [cur] is the line being read, last character first. *)
Fixpoint splitlines_from (cur : str) (s : str) : list str :=
  match s with
  | [] => match cur with [] => [] | _ => [rev cur] end
  | c :: rest =>
      if is_linebreak c then
        rev cur ::
          match rest with
          | d :: rest' =>
              if N.eqb c 0x0D && N.eqb d 0x0A then splitlines_from [] rest'
              else splitlines_from [] rest
          | [] => splitlines_from [] rest
          end
      else splitlines_from (c :: cur) rest
  end.

Definition splitlines (s : str) : list str := splitlines_from [] s.

(** *** [str.encode("unicode_escape")], read back as ASCII *)

Definition hex_digit (d : N) : char :=
  (if d <? 10 then 48 + d else 87 + d)%N.

Fixpoint hex_fixed (width : nat) (n : N) : str :=
  match width with
  | O => []
  | S w => hex_fixed w (n / 16) ++ [hex_digit (n mod 16)]
  end.

Definition unicode_escape_char (c : char) : str :=
  (if c <? 0x100 then
     if (0x20 <=? c) && (c <? 127) then
       if c =? 92 then [92; 92] else [c]
     else if c =? 9 then [92; 116]
     else if c =? 10 then [92; 110]
     else if c =? 13 then [92; 114]
     else [92; 120] ++ hex_fixed 2 c
   else if c <? 0x10000 then [92; 117] ++ hex_fixed 4 c
   else [92; 85] ++ hex_fixed 8 c)%N.

Definition unicode_escape (s : str) : str := flat_map unicode_escape_char s.

(** *** Formatting of integers in f-strings *)

Definition str_of_int (z : Z) : str :=
  lit (DecimalString.NilZero.string_of_int (Z.to_int z)).

Definition upper (c : char) : char :=
  (if (97 <=? c) && (c <=? 122) then c - 32 else c)%N.

(** [f"{n:04X}"] for [n >= 0]. *)
Definition format_04X (n : Z) : str :=
  let digits := map upper
    (lit (HexadecimalString.NilZero.string_of_uint (N.to_hex_uint (Z.to_N n)))) in
  repeat 48%N (4 - length digits) ++ digits.

(** *** [int(s)] on ASCII text: optional blanks, a sign, decimal digits
    with single underscores between them. *)

Definition is_ascii_digit (c : char) : bool := ((48 <=? c) && (c <=? 57))%N.
Definition is_ascii_space (c : char) : bool :=
  str_in c [0x20; 0x09; 0x0A; 0x0B; 0x0C; 0x0D]%N.

Fixpoint lstrip_with (sp : char -> bool) (s : str) : str :=
  match s with
  | c :: r => if sp c then lstrip_with sp r else s
  | [] => []
  end.

Definition strip_with (sp : char -> bool) (s : str) : str :=
  rev (lstrip_with sp (rev (lstrip_with sp s))).

Fixpoint digits_value (acc : Z) (after_digit : bool) (s : str) : option Z :=
  match s with
  | [] => if after_digit then Some acc else None
  | c :: r =>
      if is_ascii_digit c then digits_value (10 * acc + (ord c - 48)) true r
      else if N.eqb c 95 && after_digit then digits_value acc false r
      else None
  end.

Definition int_of_str (s : str) : result Z :=
  let body := strip_with is_ascii_space s in
  let parsed :=
    match body with
    | 45%N :: r => option_map Z.opp (digits_value 0 false r)
    | 43%N :: r => digits_value 0 false r
    | _ => digits_value 0 false body
    end in
  match parsed with
  | Some z => Ok z
  | None => Raise ValueError
  end.

(** *** [a / b] on integers below 2^53, as binary64 *)

(** The literal [0.3]: the binary64 number nearest to three tenths. *)
Definition float_0_3 : float := 0x1.3333333333333p-2%float.

Definition float_of_int (a : Z) : float := PrimFloat.of_uint63 (Uint63.of_Z a).

Definition truediv (a b : Z) : result float :=
  if b =? 0 then Raise ZeroDivisionError
  else Ok (PrimFloat.div (float_of_int a) (float_of_int b)).

(** *** [shlex.split(s)]: POSIX mode, [whitespace_split], no comments

    [state] is the lexer's [self.state] ([' '], ['a'], a quote or the
    escape character); the end of input is the empty list. *)

Inductive lex_state :=
| LexBlank
| LexWord
| LexQuote (q : char)
| LexEscape (e : char).

Record lexer := {
  state : lex_state;
  escapedstate : lex_state;
  quoted : bool;
  token : str
}.

Definition whitespace : str := [0x20; 0x09; 0x0D; 0x0A]%N.
Definition quotes : str := [39; 34]%N.
Definition escape : str := [92]%N.
Definition escapedquotes : str := [34]%N.

Definition in_wordchars (c : char) : bool :=
  ((97 <=? c) && (c <=? 122) || (65 <=? c) && (c <=? 90)
   || (48 <=? c) && (c <=? 57) || (c =? 95)
   || (0xC0 <=? c) && (c <=? 0xD6) || (0xD8 <=? c) && (c <=? 0xF6)
   || (0xF8 <=? c) && (c <=? 0xFF))%N.

Definition fresh (st : lex_state) : lexer :=
  {| state := st; escapedstate := LexBlank; quoted := false; token := [] |}.

Definition has_token (lx : lexer) : bool :=
  match token lx with [] => quoted lx | _ :: _ => true end.

(** The token [read_token] returns when it breaks out of its loop; an
    unquoted empty one is the end marker and adds nothing. *)
Definition emit (lx : lexer) (acc : list str) : list str :=
  if has_token lx then acc ++ [token lx] else acc.

Definition with_state (lx : lexer) (st : lex_state) : lexer :=
  {| state := st; escapedstate := escapedstate lx;
     quoted := quoted lx; token := token lx |}.

Definition push (lx : lexer) (c : char) : lexer :=
  {| state := state lx; escapedstate := escapedstate lx;
     quoted := quoted lx; token := token lx ++ [c] |}.

Fixpoint read_tokens (lx : lexer) (input : str) (acc : list str)
  : result (list str) :=
  match input with
  | [] =>
      match state lx with
      | LexBlank | LexWord => Ok (emit lx acc)
      | LexQuote _ => Raise ValueError    (* No closing quotation *)
      | LexEscape _ => Raise ValueError   (* No escaped character *)
      end
  | c :: rest =>
      match state lx with
      | LexBlank =>
          if str_in c whitespace then
            if has_token lx then read_tokens (fresh LexBlank) rest (emit lx acc)
            else read_tokens lx rest acc
          else if str_in c escape then
            read_tokens {| state := LexEscape c; escapedstate := LexWord;
                           quoted := quoted lx; token := token lx |} rest acc
          else if in_wordchars c then
            read_tokens {| state := LexWord; escapedstate := escapedstate lx;
                           quoted := quoted lx; token := [c] |} rest acc
          else if str_in c quotes then
            read_tokens (with_state lx (LexQuote c)) rest acc
          else
            read_tokens {| state := LexWord; escapedstate := escapedstate lx;
                           quoted := quoted lx; token := [c] |} rest acc
      | LexQuote q =>
          let lx := {| state := state lx; escapedstate := escapedstate lx;
                       quoted := true; token := token lx |} in
          if N.eqb c q then read_tokens (with_state lx LexWord) rest acc
          else if str_in c escape && str_in q escapedquotes then
            read_tokens {| state := LexEscape c; escapedstate := LexQuote q;
                           quoted := true; token := token lx |} rest acc
          else read_tokens (push lx c) rest acc
      | LexEscape e =>
          let lx1 :=
            match escapedstate lx with
            | LexQuote q =>
                if negb (N.eqb c e) && negb (N.eqb c q) then push lx e else lx
            | _ => lx
            end in
          read_tokens (with_state (push lx1 c) (escapedstate lx)) rest acc
      | LexWord =>
          if str_in c whitespace then
            if has_token lx then read_tokens (fresh LexBlank) rest (emit lx acc)
            else read_tokens (with_state lx LexBlank) rest acc
          else if str_in c quotes then
            read_tokens (with_state lx (LexQuote c)) rest acc
          else if str_in c escape then
            read_tokens {| state := LexEscape c; escapedstate := LexWord;
                           quoted := quoted lx; token := token lx |} rest acc
          else read_tokens (push lx c) rest acc
      end
  end.

Definition shlex_split (s : str) : result (list str) :=
  read_tokens (fresh LexBlank) s [].

(** *** [re]: a backtracking matcher for the constructs the two patterns use *)

Inductive regex :=
| Eps                                 (* the empty pattern *)
| Bol                                 (* ^ *)
| Eol                                 (* $ *)
| Chr (c : char)                      (* a literal character *)
| Dot                                 (* . *)
| Seq (r1 r2 : regex)
| Opt (r : regex)                     (* r? *)
| Plus (r : regex)                    (* r+ *)
| PlusLazy (r : regex)                (* r+? *)
| Group (name : string) (r : regex).  (* (?P<name>r) *)
Arguments Chr c%_N.

Definition groups := list (string * str).

(** A matcher reads from a position: [pos] counts the characters consumed
    so far, [s] is what is left, [gs] the groups closed so far, and the
    continuation is the rest of the pattern. *)
Definition kont (A : Type) := nat -> str -> groups -> option A.
Definition matcher (A : Type) := nat -> str -> groups -> kont A -> option A.

(** [r+]: after a round of [body] the engine first tries another round and
    falls back to the rest of the pattern.  A round consumes a character,
    so [n] rounds are enough for [n] characters. *)
Fixpoint greedy {A} (body : matcher A) (n : nat) (k : kont A)
    (pos : nat) (s : str) (gs : groups) : option A :=
  match n with
  | O => None
  | S n' =>
      body pos s gs (fun p' s' gs' =>
        match greedy body n' k p' s' gs' with
        | Some a => Some a
        | None => k p' s' gs'
        end)
  end.

(** [r+?]: after a round of [body] the engine first tries the rest of the
    pattern and falls back to another round. *)
Fixpoint lazy {A} (body : matcher A) (n : nat) (k : kont A)
    (pos : nat) (s : str) (gs : groups) : option A :=
  match n with
  | O => None
  | S n' =>
      body pos s gs (fun p' s' gs' =>
        match k p' s' gs' with
        | Some a => Some a
        | None => lazy body n' k p' s' gs'
        end)
  end.

Fixpoint rmatch {A} (r : regex) : matcher A :=
  fun pos s gs k =>
  match r with
  | Eps => k pos s gs
  | Bol => if Nat.eqb pos 0 then k pos s gs else None
  | Eol =>
      match s with
      | [] => k pos s gs
      | [c] => if N.eqb c 0x0A then k pos s gs else None
      | _ => None
      end
  | Chr c =>
      match s with
      | x :: s' => if N.eqb x c then k (S pos) s' gs else None
      | [] => None
      end
  | Dot =>
      match s with
      | x :: s' => if N.eqb x 0x0A then None else k (S pos) s' gs
      | [] => None
      end
  | Seq r1 r2 =>
      rmatch r1 pos s gs (fun p' s' gs' => rmatch r2 p' s' gs' k)
  | Opt r1 =>
      match rmatch r1 pos s gs k with
      | Some a => Some a
      | None => k pos s gs
      end
  | Plus r1 => greedy (rmatch r1) (S (length s)) k pos s gs
  | PlusLazy r1 => lazy (rmatch r1) (S (length s)) k pos s gs
  | Group name r1 =>
      rmatch r1 pos s gs (fun p' s' gs' =>
        k p' s' ((name, firstn (p' - pos) s) :: gs'))
  end.

(** A literal string inside a pattern. *)
Fixpoint Str (s : str) (r : regex) : regex :=
  match s with
  | [] => r
  | c :: s' => Seq (Chr c) (Str s' r)
  end.

(** [pattern.match(s)]: the groups of the match, if there is one. *)
Definition re_match (r : regex) (s : str) : option groups :=
  rmatch r 0%nat s [] (fun _ _ gs => Some gs).

(** [m.group(name)]; [None] when the group took no part in the match. *)
Fixpoint group (gs : groups) (name : string) : option str :=
  match gs with
  | [] => None
  | (n, v) :: gs' => if String.eqb n name then Some v else group gs' name
  end.

(** *** What is taken as given: the Unicode character database behind
    [str.isspace] and [unicodedata], and the UTF-8 decoder. *)

Class Library := {
  isspace : char -> bool;                     (* ch.isspace() *)
  unicodedata_category : char -> str;         (* unicodedata.category(ch) *)
  unicodedata_name : char -> option str;      (* unicodedata.name(ch), if any *)
  decode_utf8_replace : list byte -> str      (* data.decode("utf-8", errors="replace") *)
}.

(** [s.strip()] *)
Definition strip `{Library} (s : str) : str := strip_with isspace s.

End Py.

Import Py.

(** ** The script *)

Definition ALLOWED_WHITESPACE : str := [0x20; 0x09; 0x0A; 0x0D]%N.

Definition VARIATION_SELECTOR_RANGES : list (Z * Z) :=
  [ (0xFE00, 0xFE0F);      (* Variation Selectors (VS1..VS16) *)
    (0xE0100, 0xE01EF) ].  (* Variation Selectors Supplement (VS17..VS256) *)

Record Finding := {
  path : str;
  line : Z;
  col : Z;
  codepoint : Z;
  name : str;
  category : str;
  rendered_line : str
}.

Definition _is_in_variation_selector_range (codepoint : Z) : bool :=
  existsb (fun '(start, stop) => (start <=? codepoint) && (codepoint <=? stop))
          VARIATION_SELECTOR_RANGES.

Definition _render_line (line : str) (max_len : Z) : str :=
  let rendered := unicode_escape line in
  if Z.of_nat (length rendered) >? max_len
  then slice_to rendered (max_len - 3) ++ lit "..."
  else rendered.

(** [max_len: int = 240] *)
Definition default_max_len : Z := 240.

Definition _is_probably_binary (data : list byte) : result bool :=
  if existsb (fun b => N.eqb (Byte.to_N b) 0) data then Ok true
  else
    let sample := firstn 4096 data in
    match sample with
    | [] => Ok false
    | _ :: _ =>
        let nontext :=
          Z.of_nat (length (filter (fun b =>
            let b := Z.of_N (Byte.to_N b) in
            (b <? 9) || ((13 <? b) && (b <? 32)) || (b =? 127)) sample)) in
        q <- truediv nontext (Z.of_nat (length sample)) ;;
        Ok (PrimFloat.ltb float_0_3 q)
    end.

(** The pattern [^diff --git (?P<old>.+?) (?P<new>.+)$]. *)
Definition _DIFF_HEADER_RE : regex :=
  Seq Bol (Str (lit "diff --git ")
    (Seq (Group "old" (PlusLazy Dot))
      (Seq (Chr 0x20) (Seq (Group "new" (Plus Dot)) Eol)))).

(** The pattern, as the raw string spells it, is
    [^@@ -\\d+(?:,\\d+)? \\+(?P<start>\\d+)(?:,(?P<count>\\d+))? @@]:
    each [\\] is an escaped backslash, so [\\d+] is a backslash followed by
    one or more letters [d], and [\\+] is one or more backslashes. *)
Definition backslash_d_plus : regex := Seq (Chr 92) (Plus (Chr 100)).

Definition _HUNK_RE : regex :=
  Seq Bol (Str (lit "@@ -")
    (Seq backslash_d_plus
      (Seq (Opt (Seq (Chr 44) backslash_d_plus))
        (Seq (Chr 0x20)
          (Seq (Plus (Chr 92))
            (Seq (Group "start" backslash_d_plus)
              (Seq (Opt (Seq (Chr 44) (Group "count" backslash_d_plus)))
                (Str (lit " @@") Eps)))))))).

(** What [subprocess.run(..., capture_output=True, text=True)] returns. *)
Record CompletedProcess := {
  returncode : Z;
  stdout : str;
  stderr : str
}.

(** The file system and the [git] executable.  A path is the string of its
    resolved form. *)
Class World := {
  cwd : str;                                    (* Path.cwd().resolve() *)
  run_git : str -> list str -> CompletedProcess;  (* _run_git(repo_root, args) *)
  resolve : str -> str;                         (* Path(p).resolve() *)
  resolve_under : str -> str -> str;            (* (repo_root / rel).resolve() *)
  is_file : str -> bool;                        (* p.is_file() *)
  relative_posix : str -> str -> option str;
    (* p.resolve().relative_to(repo_root).as_posix(); None: ValueError *)
  read_bytes : str -> option (list byte)        (* p.read_bytes(); None: OSError *)
}.

(** The flags [argparse] hands to [main]. *)
Record Args := {
  all : bool;
  staged : bool;
  base : option str
}.

(** What a run leaves behind: the exit status and the lines printed on the
    standard output and on the error stream. *)
Record Outcome := {
  exit_code : Z;
  printed : list str;
  errors : list str
}.

(** The loop state of [_parse_diff_added_lines]. *)
Record DiffState := {
  current_path : option str;
  new_line : option Z;
  rows : list (str * Z * str)
}.

(** The arguments [_scan_git_diff] passes to [git]. *)
Definition diff_command (diff_args : list str) : list str :=
  [lit "diff"; lit "--no-color"; lit "--no-ext-diff"; lit "--no-prefix";
   lit "-U0"] ++ diff_args.

Section Script.

Context {L : Library} {W : World}.

Definition _repo_root : str :=
  let proc := run_git cwd [lit "rev-parse"; lit "--show-toplevel"] in
  if negb (returncode proc =? 0) then cwd
  else resolve (strip (stdout proc)).

Definition _is_forbidden_char (ch : char) : bool :=
  if str_in ch ALLOWED_WHITESPACE then false
  else if isspace ch then true
  else
    let codepoint := ord ch in
    if _is_in_variation_selector_range codepoint then true
    else
      let category := unicodedata_category ch in
      if str_eqb category (lit "Cc") || str_eqb category (lit "Cf") then true
      else if codepoint =? 0x034F then true
      else false.

Definition _scan_text (path : str) (text : str) (start_line : Z) : list Finding :=
  flat_map (fun '(i, line) =>
    flat_map (fun '(j, ch) =>
      if negb (_is_forbidden_char ch) then []
      else
        [ {| path := path;
             line := i;
             col := j;
             codepoint := ord ch;
             name := match unicodedata_name ch with
                     | Some n => n
                     | None => lit "UNKNOWN"
                     end;
             category := unicodedata_category ch;
             rendered_line := _render_line line default_max_len |} ])
      (enumerate line 1))
    (enumerate (splitlines text) start_line).

(** The strict decode followed by the decode with [errors="replace"] is the
    decode with [errors="replace"]. *)
Definition _scan_file (repo_root file_path : str) : result (list Finding) :=
  match relative_posix repo_root file_path with
  | None => Raise ValueError
  | Some rel =>
      match read_bytes file_path with
      | None => Ok []
      | Some data =>
          binary <- _is_probably_binary data ;;
          if binary then Ok []
          else Ok (_scan_text rel (decode_utf8_replace data) 1)
      end
  end.

Definition parse_diff_line (st : DiffState) (raw : str) : result DiffState :=
  match re_match _DIFF_HEADER_RE raw with
  | Some m =>
      parts <- shlex_split raw ;;
      (* parts[3], or m.group("new"): both are there in their branch *)
      let p := if (4 <=? length parts)%nat then nth_error parts 3
               else group m "new" in
      Ok {| current_path := p; new_line := None; rows := rows st |}
  | None =>
      match re_match _HUNK_RE raw with
      | Some m =>
          n <- int_of_str (match group m "start" with Some g => g | None => [] end) ;;
          Ok {| current_path := current_path st; new_line := Some n;
                rows := rows st |}
      | None =>
          match current_path st, new_line st with
          | Some p, Some n =>
              if startswith raw (lit "+++ ") || startswith raw (lit "--- ")
              then Ok st
              else if startswith raw (lit "\ No newline at end of file")
              then Ok st
              else if startswith raw (lit "+") then
                Ok {| current_path := current_path st;
                      new_line := Some (n + 1);
                      rows := rows st ++ [(p, n, skipn 1 raw)] |}
              else if startswith raw (lit "-") then Ok st
              else if startswith raw (lit " ") then
                Ok {| current_path := current_path st;
                      new_line := Some (n + 1);
                      rows := rows st |}
              else Ok st
          | _, _ => Ok st
          end
      end
  end.

Fixpoint parse_diff_lines (st : DiffState) (lines : list str) : result DiffState :=
  match lines with
  | [] => Ok st
  | raw :: rest => st' <- parse_diff_line st raw ;; parse_diff_lines st' rest
  end.

Definition _parse_diff_added_lines (diff_text : str) : result (list (str * Z * str)) :=
  st <- parse_diff_lines
          {| current_path := None; new_line := None; rows := [] |}
          (splitlines diff_text) ;;
  Ok (rows st).

Definition collect_listed (repo_root : str) (proc : CompletedProcess) : list str :=
  if negb (returncode proc =? 0) then []
  else
    flat_map (fun line =>
      let rel := strip line in
      match rel with
      | [] => []
      | _ :: _ =>
          let p := resolve_under repo_root rel in
          if is_file p then [p] else []
      end) (splitlines (stdout proc)).

Definition _collect_untracked (repo_root : str) : list str :=
  collect_listed repo_root
    (run_git repo_root [lit "ls-files"; lit "--others"; lit "--exclude-standard"]).

Definition _collect_tracked_files (repo_root : str) : list str :=
  collect_listed repo_root (run_git repo_root [lit "ls-files"]).

Definition _scan_git_diff (repo_root : str) (diff_args : list str)
  : result (list Finding) :=
  let proc := run_git repo_root (diff_command diff_args) in
  if negb (returncode proc =? 0) then
    Raise (RuntimeError (match strip (stderr proc) with
                         | [] => lit "git diff failed"
                         | msg => msg
                         end))
  else
    added <- _parse_diff_added_lines (stdout proc) ;;
    Ok (flat_map (fun '(p, line_no, added_line) =>
          map (fun f =>
            {| path := f.(path);
               line := line_no;
               col := f.(col);
               codepoint := f.(codepoint);
               name := f.(name);
               category := f.(category);
               rendered_line := _render_line added_line default_max_len |})
            (_scan_text p added_line line_no))
        added).

(** [for p in files: findings.extend(_scan_file(repo_root, p))] *)
Fixpoint scan_files (repo_root : str) (files : list str) : result (list Finding) :=
  match files with
  | [] => Ok []
  | p :: rest =>
      fs <- _scan_file repo_root p ;;
      more <- scan_files repo_root rest ;;
      Ok (fs ++ more)
  end.

(** The body of the [try] in [main]. *)
Definition gather (args : Args) (repo_root : str) : result (list Finding) :=
  if all args then scan_files repo_root (_collect_tracked_files repo_root)
  else
    match base args with
    | Some (c :: ref) =>
        _scan_git_diff repo_root [(c :: ref) ++ lit "...HEAD"]
    | _ =>
        if staged args then
          f1 <- _scan_git_diff repo_root [lit "--cached"] ;;
          f2 <- scan_files repo_root (_collect_untracked repo_root) ;;
          Ok (f1 ++ f2)
        else
          f1 <- _scan_git_diff repo_root [lit "--cached"] ;;
          f2 <- _scan_git_diff repo_root [] ;;
          f3 <- scan_files repo_root (_collect_untracked repo_root) ;;
          Ok (f1 ++ f2 ++ f3)
    end.

Definition report_line (f : Finding) : str :=
  lit "- " ++ f.(path) ++ lit ":" ++ str_of_int f.(line) ++ lit ":"
  ++ str_of_int f.(col) ++ lit " U+" ++ format_04X f.(codepoint) ++ lit " "
  ++ f.(name) ++ lit " (" ++ f.(category) ++ lit ") :: " ++ f.(rendered_line).

(** What [main] does with the outcome of the [try]: a [RuntimeError] is
    caught and reported, any other exception leaves [main] uncaught. *)
Definition report (gathered : result (list Finding)) : result Outcome :=
  match gathered with
  | Raise (RuntimeError exc) =>
      Ok {| exit_code := 2; printed := [];
            errors := [lit "ERROR: " ++ exc] |}
  | Raise e => Raise e
  | Ok [] =>
      Ok {| exit_code := 0;
            printed := [lit "OK: no invisible/suspicious characters found."];
            errors := [] |}
  | Ok findings =>
      Ok {| exit_code := 1;
            printed := lit "FAIL: invisible/suspicious characters found:"
                       :: map report_line findings;
            errors := [] |}
  end.

Definition main (args : Args) : result Outcome :=
  let repo_root := _repo_root in
  report (gather args repo_root).

End Script.

(** ** Sample instances

    An excerpt of the Unicode Character Database (the characters the
    examples below use; any other character is left unassigned, [Cn]), a
    UTF-8 decoder, and two small worlds. *)

Module Sample.

Definition between (lo hi c : N) : bool := ((lo <=? c) && (c <=? hi))%N.

Definition isspace (c : char) : bool :=
  (between 0x09 0x0D c || between 0x1C 0x20 c || (c =? 0x85) || (c =? 0xA0)
   || (c =? 0x1680) || between 0x2000 0x200A c || between 0x2028 0x2029 c
   || (c =? 0x202F) || (c =? 0x205F) || (c =? 0x3000))%N.

Definition category (c : char) : str :=
  (if (c <? 0x20) || between 0x7F 0x9F c then lit "Cc"
   else if (c =? 0x20) || (c =? 0xA0) || between 0x2000 0x200A c then lit "Zs"
   else if between 0x30 0x39 c then lit "Nd"
   else if between 0x41 0x5A c then lit "Lu"
   else if between 0x61 0x7A c then lit "Ll"
   else if (c =? 0xAD) || between 0x200B 0x200F c || between 0x202A 0x202E c
           || between 0x2060 0x2064 c || between 0x2066 0x206F c
           || (c =? 0xFEFF) then lit "Cf"
   else if c =? 0x2028 then lit "Zl"
   else if c =? 0x2029 then lit "Zp"
   else if (c =? 0x034F) || between 0xFE00 0xFE0F c || between 0xE0100 0xE01EF c
   then lit "Mn"
   else lit "Cn")%N.

Definition name (c : char) : option str :=
  (if c =? 0x200B then Some (lit "ZERO WIDTH SPACE")
   else if c =? 0x2028 then Some (lit "LINE SEPARATOR")
   else if c =? 0xFE0F then Some (lit "VARIATION SELECTOR-16")
   else None)%N.

Definition cont (b : N) : bool := between 0x80 0xBF b.

(** Well-formed UTF-8 is decoded; a byte that starts no well-formed
    sequence becomes U+FFFD. *)
Fixpoint decode (bs : list byte) : str :=
  match bs with
  | [] => []
  | b0 :: r0 =>
      let n0 := Byte.to_N b0 in
      if (n0 <? 0x80)%N then n0 :: decode r0
      else
        match r0 with
        | b1 :: r1 =>
            let n1 := Byte.to_N b1 in
            if between 0xC2 0xDF n0 && cont n1
            then ((n0 - 0xC0) * 64 + (n1 - 0x80))%N :: decode r1
            else
              match r1 with
              | b2 :: r2 =>
                  let n2 := Byte.to_N b2 in
                  let c3 := ((n0 - 0xE0) * 4096 + (n1 - 0x80) * 64 + (n2 - 0x80))%N in
                  if between 0xE0 0xEF n0 && cont n1 && cont n2
                     && (0x800 <=? c3)%N && negb (between 0xD800 0xDFFF c3)
                  then c3 :: decode r2
                  else
                    match r2 with
                    | b3 :: r3 =>
                        let n3 := Byte.to_N b3 in
                        let c4 := ((n0 - 0xF0) * 262144 + (n1 - 0x80) * 4096
                                   + (n2 - 0x80) * 64 + (n3 - 0x80))%N in
                        if between 0xF0 0xF4 n0 && cont n1 && cont n2 && cont n3
                           && between 0x10000 0x10FFFF c4
                        then c4 :: decode r3
                        else 0xFFFD%N :: decode r0
                    | [] => 0xFFFD%N :: decode r0
                    end
              | [] => 0xFFFD%N :: decode r0
              end
        | [] => [0xFFFD%N]
        end
  end.

Definition library : Library := {|
  Py.isspace := isspace;
  unicodedata_category := category;
  unicodedata_name := name;
  decode_utf8_replace := decode
|}.

Fixpoint lookup {A} (files : list (str * A)) (p : str) : option A :=
  match files with
  | [] => None
  | (n, v) :: rest => if str_eqb n p then Some v else lookup rest p
  end.

(** A world with the given [git] and the given files under [/repo]. *)
Definition world (git : list str -> CompletedProcess)
    (files : list (str * list byte)) : World := {|
  cwd := lit "/repo";
  run_git := fun _ args => git args;
  resolve := fun p => p;
  resolve_under := fun root rel => root ++ lit "/" ++ rel;
  is_file := fun p => match lookup files p with Some _ => true | None => false end;
  relative_posix := fun root p =>
    if startswith p (root ++ lit "/") then Some (skipn (length root + 1) p)
    else None;
  read_bytes := lookup files
|}.

Definition bytes_of (s : str) : list byte :=
  flat_map (fun c => match Byte.of_N c with Some b => [b] | None => [] end) s.

(** Outside a repository every [git] command fails. *)
Definition no_git (args : list str) : CompletedProcess :=
  {| returncode := 128; stdout := [];
     stderr := lit "fatal: not a git repository" ++ [0x0A%N] |}.

Definition not_a_repository : World := world no_git [].

(** A repository whose index cannot be listed; its diffs are empty. *)
Definition git_no_listing (args : list str) : CompletedProcess :=
  match args with
  | cmd :: _ =>
      if str_eqb cmd (lit "ls-files")
      then {| returncode := 128; stdout := [];
              stderr := lit "fatal: index file corrupt" ++ [0x0A%N] |}
      else if str_eqb cmd (lit "rev-parse")
      then {| returncode := 0; stdout := lit "/repo" ++ [0x0A%N]; stderr := [] |}
      else {| returncode := 0; stdout := []; stderr := [] |}
  | [] => {| returncode := 1; stdout := []; stderr := [] |}
  end.

Definition no_listing : World := world git_no_listing [].

(** A repository with one tracked file and nothing staged or changed. *)
Definition git_one_file (args : list str) : CompletedProcess :=
  match args with
  | cmd :: rest =>
      if str_eqb cmd (lit "rev-parse")
      then {| returncode := 0; stdout := lit "/repo" ++ [0x0A%N]; stderr := [] |}
      else if str_eqb cmd (lit "ls-files") then
        match rest with
        | [] => {| returncode := 0; stdout := lit "notes.txt" ++ [0x0A%N];
                   stderr := [] |}
        | _ => {| returncode := 0; stdout := []; stderr := [] |}
        end
      else {| returncode := 0; stdout := []; stderr := [] |}
  | [] => {| returncode := 1; stdout := []; stderr := [] |}
  end.

(** The UTF-8 bytes of [safe], U+200B, [danger] and a line feed. *)
Definition notes_txt : list byte :=
  bytes_of (lit "safe") ++ [xe2; x80; x8b] ++ bytes_of (lit "danger") ++ [x0a].

Definition one_file : World :=
  world git_one_file [(lit "/repo/notes.txt", notes_txt)].

Definition flag_all : Args := {| all := true; staged := false; base := None |}.
Definition flag_staged : Args := {| all := false; staged := true; base := None |}.
Definition flag_none : Args := {| all := false; staged := false; base := None |}.
Definition flag_base (ref : str) : Args :=
  {| all := false; staged := false; base := Some ref |}.

End Sample.

From Stdlib Require Import Sorted.

(** ** [scripts/build_skills_json.py]: the string helper *)

(** [s.endswith(suffix)] *)
Definition endswith (s suffix : str) : bool := startswith (rev s) (rev suffix).

(** [strip_quotes(value)]; [value[1:-1]] is the slice [[:-1]] without its
    first character. *)
Definition strip_quotes {L : Library} (value : option str) : option str :=
  match value with
  | None => None
  | Some value =>
      let value := strip value in
      if (startswith value [34%N] && endswith value [34%N])
         || (startswith value [39%N] && endswith value [39%N])
      then Some (strip (skipn 1 (slice_to value (-1))))
      else Some value
  end.

(** ** Definitions used to state the properties *)

(** The coordinates of a finding. *)
Definition where_ (f : Finding) : Z * Z * Z := (line f, col f, codepoint f).

(** The bytes the heuristic counts: control bytes other than tab, line
    feed and carriage return. *)
Definition is_control (b : byte) : bool :=
  let n := Byte.to_N b in
  ((n <? 9) || ((13 <? n) && (n <? 32)) || (n =? 127))%N.

Definition control_count (sample : list byte) : nat :=
  length (filter is_control sample).

(** A table check: for every sample length [m] from 1 to 4096 and every
    count [n] from 0 to [m], the binary64 test [0.3 < n / m] agrees with
    the exact test [3 * m < 10 * n]. *)
Definition agree63 (m n : int) : bool :=
  Bool.eqb
    (PrimFloat.ltb float_0_3
       (PrimFloat.div (PrimFloat.of_uint63 n) (PrimFloat.of_uint63 m)))
    (3 * m <? 10 * n)%uint63.

Fixpoint all_from (fuel : nat) (k : int) (p : int -> bool) : bool :=
  match fuel with
  | O => true
  | S f => p k && all_from f (k + 1)%uint63 p
  end.

Fixpoint table_rows (fuel size : nat) (m : int) : bool :=
  match fuel with
  | O => true
  | S f => all_from (S size) 0%uint63 (agree63 m)
           && table_rows f (S size) (m + 1)%uint63
  end.

(** [s] ends with [suffix]. *)
Definition ends_with (s suffix : str) : Prop := exists front, s = front ++ suffix.

(** Printable ASCII: what a terminal shows as itself. *)
Definition printable_ascii (c : char) : Prop := (0x20 <= c < 0x7F)%N.

(** What it means for a pattern to match: [Sem r p s g p' s' g'] says that
    [r], started after [p] characters with [s] still to read and the groups
    [g], can end after [p'] characters with [s'] still to read and the
    groups [g']. *)
Inductive Sem : regex -> nat -> str -> groups -> nat -> str -> groups -> Prop :=
| SemEps p s g : Sem Eps p s g p s g
| SemBol s g : Sem Bol 0 s g 0 s g
| SemEol p s g : s = [] \/ s = [0x0A%N] -> Sem Eol p s g p s g
| SemChr c p s g : Sem (Chr c) p (c :: s) g (S p) s g
| SemDot c p s g : c <> 0x0A%N -> Sem Dot p (c :: s) g (S p) s g
| SemSeq r1 r2 p s g p1 s1 g1 p2 s2 g2 :
    Sem r1 p s g p1 s1 g1 -> Sem r2 p1 s1 g1 p2 s2 g2 ->
    Sem (Seq r1 r2) p s g p2 s2 g2
| SemOptSome r p s g p1 s1 g1 :
    Sem r p s g p1 s1 g1 -> Sem (Opt r) p s g p1 s1 g1
| SemOptNone r p s g : Sem (Opt r) p s g p s g
| SemPlusOne r p s g p1 s1 g1 :
    Sem r p s g p1 s1 g1 -> Sem (Plus r) p s g p1 s1 g1
| SemPlusMore r p s g p1 s1 g1 p2 s2 g2 :
    Sem r p s g p1 s1 g1 -> Sem (Plus r) p1 s1 g1 p2 s2 g2 ->
    Sem (Plus r) p s g p2 s2 g2
| SemLazyOne r p s g p1 s1 g1 :
    Sem r p s g p1 s1 g1 -> Sem (PlusLazy r) p s g p1 s1 g1
| SemLazyMore r p s g p1 s1 g1 p2 s2 g2 :
    Sem r p s g p1 s1 g1 -> Sem (PlusLazy r) p1 s1 g1 p2 s2 g2 ->
    Sem (PlusLazy r) p s g p2 s2 g2
| SemGroup name r p s g p1 s1 g1 :
    Sem r p s g p1 s1 g1 ->
    Sem (Group name r) p s g p1 s1 ((name, firstn (p1 - p) s) :: g1).

(** A matcher is sound for a pattern when it finds only its matches. *)
Definition sound_for {A} (r : regex) (m : matcher A) : Prop :=
  forall p s g k a,
    m p s g k = Some a ->
    exists p' s' g', Sem r p s g p' s' g' /\ k p' s' g' = Some a.

(** The diff of the worked example: six physical lines. *)
Definition example_diff : str :=
  lit "diff --git a.txt b.txt" ++ [0x0A%N]
  ++ lit "@@ -1,2 +1,3 @@" ++ [0x0A%N]
  ++ lit "-old" ++ [0x0A%N]
  ++ lit "+new1" ++ [0x0A%N]
  ++ lit "+new2" ++ [0x0A%N]
  ++ lit " context" ++ [0x0A%N].

(** The header [git diff --no-prefix] prints for a file renamed from
    [it's.txt] to [renamed.txt]. *)
Definition rename_diff : str :=
  lit "diff --git it's.txt renamed.txt" ++ [0x0A%N]
  ++ lit "similarity index 100%" ++ [0x0A%N]
  ++ lit "rename from it's.txt" ++ [0x0A%N]
  ++ lit "rename to renamed.txt" ++ [0x0A%N].

(** The invariant of the data model. *)
Definition finding_ok (f : Finding) : Prop :=
  1 <= line f /\ 1 <= col f /\ 0 <= codepoint f.

(** The two outcomes [main] prints on the standard output or on the error
    stream without a list of findings. *)
Definition clean_outcome : Outcome :=
  {| exit_code := 0;
     printed := [lit "OK: no invisible/suspicious characters found."];
     errors := [] |}.

Definition fatal_outcome (message : str) : Outcome :=
  {| exit_code := 2; printed := []; errors := [lit "ERROR: " ++ message] |}.

Section Runs.

Context {L : Library} {W : World}.

(** [git diff] with the given arguments exits nonzero. *)
Definition diff_fails (root : str) (diff_args : list str) : Prop :=
  returncode (run_git root (diff_command diff_args)) <> 0.

(** The run reaches a [git diff] that exits nonzero: the one diff of the
    BaseRef and Staged modes; in Default mode the cached diff, or the
    working-tree diff once the cached one has been scanned. *)
Definition meets_diff_failure (args : Args) (root : str) : Prop :=
  all args = false /\
  match base args with
  | Some (c :: ref) => diff_fails root [(c :: ref) ++ lit "...HEAD"]
  | _ =>
      diff_fails root [lit "--cached"]
      \/ (staged args = false
          /\ (exists f1, _scan_git_diff root [lit "--cached"] = Ok f1)
          /\ diff_fails root [])
  end.

(** The diff scans of a run outside All mode, without any file scan. *)
Definition gather_diffs (args : Args) (root : str) : result (list Finding) :=
  match base args with
  | Some (c :: ref) => _scan_git_diff root [(c :: ref) ++ lit "...HEAD"]
  | _ =>
      if staged args then _scan_git_diff root [lit "--cached"]
      else
        f1 <- _scan_git_diff root [lit "--cached"] ;;
        f2 <- _scan_git_diff root [] ;;
        Ok (f1 ++ f2)
  end.

End Runs.

(** Document order: an earlier line, or the same line and an earlier
    column. *)
Definition before (f g : Finding) : Prop :=
  line f < line g \/ (line f = line g /\ col f < col g).

(** The finding [_scan_text] builds for the character [ch] at index [j] of
    the line [ln] at index [i]. *)
Definition finding_at {L : Library} (p : str) (start : Z) (i : nat) (ln : str)
    (j : nat) (ch : char) : Finding :=
  {| path := p;
     line := start + Z.of_nat i;
     col := 1 + Z.of_nat j;
     codepoint := ord ch;
     name := match unicodedata_name ch with
             | Some n => n
             | None => lit "UNKNOWN"
             end;
     category := unicodedata_category ch;
     rendered_line := _render_line ln default_max_len |}.

(** The same finding [k] lines further down. *)
Definition move_down (k : Z) (f : Finding) : Finding :=
  {| path := path f; line := line f + k; col := col f;
     codepoint := codepoint f; name := name f; category := category f;
     rendered_line := rendered_line f |}.

(** The code points at which [str.splitlines] breaks a line. *)
Definition line_boundaries : list Z :=
  [0x0A; 0x0B; 0x0C; 0x0D; 0x1C; 0x1D; 0x1E; 0x85; 0x2028; 0x2029].

(** The findings of one line: [cols] pairs each character still to scan
    with its column. *)
Definition column_findings {L : Library} (p : str) (i : Z) (ln : str)
    (cols : list (Z * char)) : list Finding :=
  flat_map (fun '(j, ch) =>
    if negb (_is_forbidden_char ch) then []
    else
      [ {| path := p; line := i; col := j; codepoint := ord ch;
           name := match unicodedata_name ch with
                   | Some n => n
                   | None => lit "UNKNOWN"
                   end;
           category := unicodedata_category ch;
           rendered_line := _render_line ln default_max_len |} ]) cols.



(** A character the shell lexer takes as part of a word: no whitespace, no
    quote, no backslash. *)
Definition plain (c : char) : Prop :=
  ~ In c [0x20; 0x09; 0x0D; 0x0A; 39; 34; 92]%N.

(** ** Properties *)

(** *** Strings and lists *)

Lemma str_eqb_eq (a b : str) : str_eqb a b = true <-> a = b.
Proof.
  revert b; induction a as [|x a IH]; intros [|y b]; simpl;
    try (split; [discriminate | discriminate]); try tauto.
  rewrite andb_true_iff, N.eqb_eq, IH.
  split; [intros [-> ->]; reflexivity | intros [= -> ->]; auto].
Qed.

Lemma str_in_In (c : char) (set : str) : str_in c set = true <-> In c set.
Proof.
  unfold str_in. rewrite existsb_exists. split.
  - intros (x & Hin & Heq). apply N.eqb_eq in Heq. now subst.
  - intros Hin. exists c. split; [assumption | apply N.eqb_refl].
Qed.

Lemma ord_nonneg (c : char) : 0 <= ord c.
Proof. unfold ord. apply N2Z.is_nonneg. Qed.

Lemma enumerate_fst_ge {A} (xs : list A) (start i : Z) (x : A) :
  In (i, x) (enumerate xs start) -> start <= i.
Proof.
  revert start; induction xs as [|y xs IH]; simpl; intros start H.
  - contradiction.
  - destruct H as [[= <- _] | H]; [lia | apply IH in H; lia].
Qed.

(** *** CodepointClassifier *)

Section Classifier.

Context {L : Library}.

Lemma variation_selector_range (cp : Z) :
  _is_in_variation_selector_range cp = true <->
  0xFE00 <= cp <= 0xFE0F \/ 0xE0100 <= cp <= 0xE01EF.
Proof.
  unfold _is_in_variation_selector_range, VARIATION_SELECTOR_RANGES. simpl.
  rewrite !orb_true_iff, !andb_true_iff, !Z.leb_le. intuition lia.
Qed.

(** C4: a character is forbidden exactly when it is outside the allowed
    whitespace (space, tab, line feed, carriage return) and it is
    whitespace, or a variation selector (U+FE00..U+FE0F,
    U+E0100..U+E01EF), or of general category Cc or Cf, or U+034F; the
    classifier is a total function of the character. *)
Theorem is_forbidden_char_rules (ch : char) :
  _is_forbidden_char ch = true <->
  ~ In ch [0x20; 0x09; 0x0A; 0x0D]%N /\
  (isspace ch = true
   \/ (0xFE00 <= ord ch <= 0xFE0F \/ 0xE0100 <= ord ch <= 0xE01EF)
   \/ (unicodedata_category ch = lit "Cc" \/ unicodedata_category ch = lit "Cf")
   \/ ord ch = 0x034F).
Proof.
  unfold _is_forbidden_char.
  destruct (str_in ch ALLOWED_WHITESPACE) eqn:Hallowed.
  - apply str_in_In in Hallowed. split; [discriminate | tauto].
  - assert (Hout : ~ In ch ALLOWED_WHITESPACE)
      by (rewrite <- str_in_In, Hallowed; discriminate).
    destruct (isspace ch) eqn:Hspace; [tauto|].
    destruct (_is_in_variation_selector_range (ord ch)) eqn:Hvs.
    + apply variation_selector_range in Hvs. tauto.
    + assert (Hnvs : ~ (0xFE00 <= ord ch <= 0xFE0F \/ 0xE0100 <= ord ch <= 0xE01EF))
        by (rewrite <- variation_selector_range, Hvs; discriminate).
      destruct (str_eqb (unicodedata_category ch) (lit "Cc")
                || str_eqb (unicodedata_category ch) (lit "Cf")) eqn:Hcat.
      * apply orb_true_iff in Hcat. rewrite !str_eqb_eq in Hcat. tauto.
      * apply orb_false_iff in Hcat. destruct Hcat as [Hcc Hcf].
        assert (unicodedata_category ch <> lit "Cc")
          by (rewrite <- str_eqb_eq, Hcc; discriminate).
        assert (unicodedata_category ch <> lit "Cf")
          by (rewrite <- str_eqb_eq, Hcf; discriminate).
        destruct (Z.eqb_spec (ord ch) 0x034F) as [Heq | Hne].
        -- tauto.
        -- split; [discriminate|]. intros [_ H1].
           destruct H1 as [H1 | [H1 | [[H1 | H1] | H1]]];
             try discriminate; tauto.
Qed.

(** A variation selector is forbidden whatever the character database. *)
Lemma variation_selector_forbidden (ch : char) :
  0xFE00 <= ord ch <= 0xFE0F \/ 0xE0100 <= ord ch <= 0xE01EF ->
  _is_forbidden_char ch = true.
Proof.
  intros H. unfold _is_forbidden_char.
  destruct (str_in ch ALLOWED_WHITESPACE) eqn:Hallowed.
  - apply str_in_In in Hallowed. unfold ord in H. simpl in Hallowed. lia.
  - destruct (isspace ch); [reflexivity|].
    apply variation_selector_range in H. now rewrite H.
Qed.

End Classifier.

(** *** TextScanner *)

Section Scanner.

Context {L : Library}.

Lemma lowercase_letter_allowed (c : char) :
  (97 <= c <= 122)%N ->
  isspace c = false /\ unicodedata_category c = lit "Ll" ->
  _is_forbidden_char c = false.
Proof.
  intros Hc [Hsp Hcat].
  unfold _is_forbidden_char.
  destruct (str_in c ALLOWED_WHITESPACE) eqn:E;
    [apply str_in_In in E; simpl in E; lia|].
  rewrite Hsp.
  destruct (_is_in_variation_selector_range (ord c)) eqn:Hvs;
    [apply variation_selector_range in Hvs; unfold ord in Hvs; lia|].
  rewrite Hcat. simpl.
  destruct (Z.eqb_spec (ord c) 0x034F) as [Heq|]; [unfold ord in Heq; lia | reflexivity].
Qed.

Lemma format_character_forbidden (c : char) :
  ~ In c ALLOWED_WHITESPACE ->
  unicodedata_category c = lit "Cf" ->
  _is_forbidden_char c = true.
Proof.
  intros Hout Hcat. unfold _is_forbidden_char.
  destruct (str_in c ALLOWED_WHITESPACE) eqn:E;
    [apply str_in_In in E; contradiction|].
  destruct (isspace c); [reflexivity|].
  destruct (_is_in_variation_selector_range (ord c)); [reflexivity|].
  rewrite Hcat. reflexivity.
Qed.

(** C5: scanning the text [safe], U+200B, [danger] from line 1 yields
    exactly one finding, at line 1, column 5, with code point 0x200B
    (given what the character database says of these characters: the
    letters are lowercase letters and not whitespace, U+200B is a format
    character). *)
Theorem scan_text_zero_width_space (p : str) :
  Forall (fun c => isspace c = false /\ unicodedata_category c = lit "Ll")
         (lit "safedanger") ->
  unicodedata_category 0x200B%N = lit "Cf" ->
  exists f,
    _scan_text p (lit "safe" ++ [0x200B%N] ++ lit "danger") 1 = [f]
    /\ line f = 1 /\ col f = 5 /\ codepoint f = 0x200B.
Proof.
  intros Hletters Hzwsp.
  assert (Hl : Forall (fun c => _is_forbidden_char c = false) (lit "safedanger")).
  { assert (Hrange : Forall (fun c => (97 <= c <= 122)%N) (lit "safedanger"))
      by (repeat constructor; simpl; lia).
    revert Hletters Hrange. generalize (lit "safedanger").
    induction 1; intros Hrange; inversion Hrange; subst; constructor;
      auto using lowercase_letter_allowed. }
  assert (Hz : _is_forbidden_char 0x200B%N = true)
    by (apply format_character_forbidden; [simpl; lia | assumption]).
  unfold _scan_text.
  change (splitlines (lit "safe" ++ [0x200B%N] ++ lit "danger"))
    with [lit "safe" ++ [0x200B%N] ++ lit "danger"].
  let letters := eval vm_compute in (lit "safedanger") in
  change (lit "safedanger") with letters in Hl.
  repeat match goal with
  | H : Forall _ (_ :: _) |- _ => inversion H; subst; clear H
  end.
  simpl.
  repeat match goal with
  | H : _is_forbidden_char _ = _ |- _ => rewrite H; clear H
  end.
  simpl. eexists. repeat split.
Qed.

(** C3: U+2028 ends a logical line.  In the text U+2028, U+FE0F the
    variation selector is reported at line 2, column 1, and the line
    separator itself is not reported. *)
Theorem scan_text_breaks_at_line_separator (p : str) :
  map where_ (_scan_text p [0x2028; 0xFE0F]%N 1) = [(2, 1, 0xFE0F)].
Proof.
  unfold _scan_text.
  change (splitlines [0x2028; 0xFE0F]%N) with [[]; [0xFE0F%N]].
  cbn [enumerate flat_map app].
  rewrite variation_selector_forbidden by (unfold ord; simpl; lia).
  reflexivity.
Qed.

End Scanner.

(** The sample database knows the letters and U+200B. *)
Lemma scan_text_zero_width_space_witness :
  exists f,
    @_scan_text Sample.library (lit "notes.txt")
      (lit "safe" ++ [0x200B%N] ++ lit "danger") 1 = [f]
    /\ line f = 1 /\ col f = 5 /\ codepoint f = 0x200B.
Proof.
  apply (@scan_text_zero_width_space Sample.library (lit "notes.txt")).
  - repeat constructor.
  - reflexivity.
Defined.

(** *** BinaryHeuristic *)

Lemma of_Z_succ (z : Z) : Uint63.of_Z (z + 1) = (Uint63.of_Z z + 1)%uint63.
Proof.
  apply Uint63.to_Z_inj.
  rewrite Uint63.add_spec, !Uint63.of_Z_spec, Uint63.to_Z_1.
  now rewrite Z.add_mod_idemp_l by discriminate.
Qed.

Lemma add_of_Z_0 (k : int) : (k + Uint63.of_Z 0)%uint63 = k.
Proof.
  apply Uint63.to_Z_inj.
  rewrite Uint63.add_spec, Uint63.of_Z_spec. 
  rewrite Z.mod_0_l by (compute; discriminate).
  rewrite Z.add_0_r. apply Z.mod_small. apply Uint63.to_Z_bounded.
Qed.

Lemma add_of_Z_succ (k : int) (z : Z) :
  (k + Uint63.of_Z (z + 1))%uint63 = (k + 1 + Uint63.of_Z z)%uint63.
Proof.
  apply Uint63.to_Z_inj.
  rewrite !Uint63.add_spec, !Uint63.of_Z_spec, Uint63.to_Z_1.
  rewrite Z.add_mod_idemp_r by discriminate.
  rewrite Z.add_mod_idemp_l by discriminate.
  rewrite Z.add_mod_idemp_r by discriminate.
  f_equal. lia.
Qed.

Lemma all_from_spec (fuel : nat) (p : int -> bool) :
  forall k, all_from fuel k p = true ->
  forall i, (i < fuel)%nat -> p (k + Uint63.of_Z (Z.of_nat i))%uint63 = true.
Proof.
  induction fuel as [|f IH]; intros k H i Hi; [lia|].
  simpl in H. apply andb_true_iff in H. destruct H as [Hk Hrest].
  destruct i as [|i].
  - simpl. now rewrite add_of_Z_0.
  - rewrite Nat2Z.inj_succ. unfold Z.succ. rewrite add_of_Z_succ.
    apply IH; [assumption | lia].
Qed.

Lemma table_rows_spec (fuel : nat) :
  forall size m, table_rows fuel size m = true ->
  forall j, (j < fuel)%nat ->
    all_from (S (size + j)) 0%uint63
             (agree63 (m + Uint63.of_Z (Z.of_nat j))%uint63) = true.
Proof.
  induction fuel as [|f IH]; intros size m H j Hj; [lia|].
  simpl in H. apply andb_true_iff in H. destruct H as [Hrow Hrest].
  destruct j as [|j].
  - simpl Z.of_nat. rewrite add_of_Z_0, Nat.add_0_r. exact Hrow.
  - rewrite Nat2Z.inj_succ. unfold Z.succ. rewrite add_of_Z_succ.
    replace (size + S j)%nat with (S size + j)%nat by lia.
    apply IH; [assumption | lia].
Qed.

Lemma table_ok_true : table_rows 4096 1 1%uint63 = true.
Proof. vm_compute. reflexivity. Qed.

Lemma agree63_all (m n : Z) :
  1 <= m <= 4096 -> 0 <= n <= m ->
  agree63 (Uint63.of_Z m) (Uint63.of_Z n) = true.
Proof.
  intros Hm Hn.
  pose proof (table_rows_spec 4096 1 1%uint63 table_ok_true (Z.to_nat (m - 1))) as Hrow.
  assert (Hj : (Z.to_nat (m - 1) < 4096)%nat) by lia.
  specialize (Hrow Hj).
  rewrite Z2Nat.id in Hrow by lia.
  pose proof (all_from_spec _ _ _ Hrow (Z.to_nat n)) as Hcell.
  assert (Hi : (Z.to_nat n < S (1 + Z.to_nat (m - 1)))%nat) by lia.
  specialize (Hcell Hi).
  rewrite Z2Nat.id in Hcell by lia.
  replace (1 + Uint63.of_Z (m - 1))%uint63 with (Uint63.of_Z m) in Hcell.
  - replace (0 + Uint63.of_Z n)%uint63 with (Uint63.of_Z n) in Hcell; [exact Hcell|].
    apply Uint63.to_Z_inj. rewrite Uint63.add_spec, Uint63.to_Z_0, Z.add_0_l.
    symmetry. apply Z.mod_small. apply Uint63.to_Z_bounded.
  - replace m with ((m - 1) + 1) at 1 by lia. rewrite of_Z_succ.
    apply Uint63.to_Z_inj. rewrite !Uint63.add_spec. f_equal. lia.
Qed.

Lemma of_Z_small (z : Z) : 0 <= z <= 65536 -> Uint63.to_Z (Uint63.of_Z z) = z.
Proof.
  intros H. rewrite Uint63.of_Z_spec. apply Z.mod_small.
  change Uint63.wB with 9223372036854775808. lia.
Qed.

Lemma mul63_small (c z : Z) :
  0 <= c <= 10 -> 0 <= z <= 4096 ->
  Uint63.to_Z (Uint63.of_Z c * Uint63.of_Z z)%uint63 = c * z.
Proof.
  intros Hc Hz. rewrite Uint63.mul_spec, !of_Z_small by lia.
  apply Z.mod_small. change Uint63.wB with 9223372036854775808. nia.
Qed.

Lemma ltb63_small (m n : Z) :
  0 <= m <= 4096 -> 0 <= n <= 4096 ->
  (3 * Uint63.of_Z m <? 10 * Uint63.of_Z n)%uint63 = (3 * m <? 10 * n).
Proof.
  intros Hm Hn.
  apply eq_true_iff_eq.
  rewrite Uint63.ltb_spec, Z.ltb_lt.
  change 3%uint63 with (Uint63.of_Z 3). change 10%uint63 with (Uint63.of_Z 10).
  rewrite !mul63_small by lia. reflexivity.
Qed.

(** On the counts the heuristic meets, the binary64 quotient exceeds the
    binary64 [0.3] exactly when the exact quotient exceeds three tenths. *)
Lemma float_fraction_exceeds (n m : Z) :
  1 <= m <= 4096 -> 0 <= n <= m ->
  PrimFloat.ltb float_0_3 (PrimFloat.div (float_of_int n) (float_of_int m))
  = (3 * m <? 10 * n).
Proof.
  intros Hm Hn.
  pose proof (agree63_all m n Hm Hn) as H.
  unfold agree63 in H. apply Bool.eqb_prop in H.
  unfold float_of_int. rewrite H. apply ltb63_small; lia.
Qed.

Lemma is_control_iff (b : byte) :
  is_control b = true <->
  (Byte.to_N b < 9 \/ 13 < Byte.to_N b < 32 \/ Byte.to_N b = 127)%N.
Proof.
  unfold is_control.
  rewrite !orb_true_iff, andb_true_iff, !N.ltb_lt, N.eqb_eq. tauto.
Qed.

Lemma has_nul_In (data : list byte) :
  existsb (fun b => N.eqb (Byte.to_N b) 0) data = true <-> In x00 data.
Proof.
  rewrite existsb_exists. split.
  - intros (b & Hin & Hb).
    destruct b; try discriminate Hb. exact Hin.
  - intros Hin. exists x00. split; [assumption | reflexivity].
Qed.

Lemma source_count (sample : list byte) :
  filter (fun b =>
    let b := Z.of_N (Byte.to_N b) in
    (b <? 9) || ((13 <? b) && (b <? 32)) || (b =? 127)) sample
  = filter is_control sample.
Proof.
  apply filter_ext. intros b. unfold is_control. cbv zeta.
  destruct (Byte.to_N b) as [|p] eqn:E; [reflexivity|].
  apply eq_true_iff_eq.
  rewrite !orb_true_iff, !andb_true_iff, !Z.ltb_lt, !N.ltb_lt, Z.eqb_eq, N.eqb_eq.
  lia.
Qed.

(** C6: [_is_probably_binary] returns a result for every byte string:
    true when a NUL byte occurs anywhere; otherwise, on the sample of at
    most the first 4096 bytes, false when the sample is empty, and else
    true exactly when the fraction of sample bytes b with b < 9, or
    13 < b < 32, or b = 127 is strictly greater than three tenths. *)
Theorem is_probably_binary_spec (data : list byte) :
  exists b, _is_probably_binary data = Ok b /\
    (In x00 data -> b = true) /\
    (~ In x00 data -> firstn 4096 data = [] -> b = false) /\
    (~ In x00 data -> firstn 4096 data <> [] ->
       (b = true <->
        (3 # 10 < Z.of_nat (control_count (firstn 4096 data))
                  # Pos.of_nat (length (firstn 4096 data)))%Q)).
Proof.
  unfold _is_probably_binary.
  destruct (existsb _ data) eqn:Hnul.
  - apply has_nul_In in Hnul. exists true. repeat split; auto; contradiction.
  - assert (Hno : ~ In x00 data) by (rewrite <- has_nul_In, Hnul; discriminate).
    destruct (firstn 4096 data) as [|b0 sample'] eqn:Hsample.
    + exists false. repeat split; auto; try contradiction; congruence.
    + rewrite <- Hsample. rewrite source_count. fold (control_count (firstn 4096 data)).
      set (sample := firstn 4096 data).
      assert (Hlen : (1 <= length sample <= 4096)%nat).
      { subst sample. split; [rewrite Hsample; simpl; lia | apply firstn_le_length]. }
      assert (Hcount : (control_count sample <= length sample)%nat)
        by apply filter_length_le.
      unfold truediv.
      destruct (Z.eqb_spec (Z.of_nat (length sample)) 0) as [E|_]; [lia|].
      simpl bind.
      rewrite float_fraction_exceeds by lia.
      eexists. split; [reflexivity|].
      split; [contradiction|]. split; [intros _ E; subst sample; congruence|].
      intros _ _. rewrite Z.ltb_lt. unfold Qlt. simpl Qnum. simpl Qden.
      assert (Z.pos (Pos.of_nat (length sample)) = Z.of_nat (length sample)).
      { destruct (length sample) eqn:El; [lia|]. 
        rewrite <- El. rewrite <- positive_nat_Z. rewrite Nat2Pos.id by lia. reflexivity. }
      lia.
Qed.

(** *** LineRenderer *)

Lemma hex_digit_printable (d : N) : (d < 16)%N -> printable_ascii (hex_digit d).
Proof.
  intros H. unfold printable_ascii, hex_digit.
  destruct (N.ltb_spec d 10); lia.
Qed.

Lemma hex_fixed_printable (width : nat) :
  forall n, Forall printable_ascii (hex_fixed width n).
Proof.
  induction width as [|w IH]; intros n; simpl; [constructor|].
  apply Forall_app. split; [apply IH|].
  constructor; [|constructor].
  apply hex_digit_printable. apply N.mod_lt. discriminate.
Qed.

Lemma unicode_escape_char_printable (c : char) :
  Forall printable_ascii (unicode_escape_char c).
Proof.
  assert (Hesc : forall x l, (x = 92 \/ x = 116 \/ x = 110 \/ x = 114
                              \/ x = 120 \/ x = 117 \/ x = 85)%N ->
                 Forall printable_ascii l -> Forall printable_ascii (x :: l)).
  { intros x l Hx Hl. constructor; [unfold printable_ascii; lia | exact Hl]. }
  unfold unicode_escape_char.
  destruct (c <? 0x100)%N.
  - destruct ((0x20 <=? c) && (c <? 127))%N eqn:Hp.
    + apply andb_true_iff in Hp. rewrite N.leb_le, N.ltb_lt in Hp.
      destruct (c =? 92)%N.
      * apply Hesc; [lia|]. apply Hesc; [lia | constructor].
      * constructor; [unfold printable_ascii; lia | constructor].
    + destruct (c =? 9)%N; [apply Hesc; [lia|]; apply Hesc; [lia | constructor]|].
      destruct (c =? 10)%N; [apply Hesc; [lia|]; apply Hesc; [lia | constructor]|].
      destruct (c =? 13)%N; [apply Hesc; [lia|]; apply Hesc; [lia | constructor]|].
      apply Hesc; [lia|]. apply Hesc; [lia|]. apply hex_fixed_printable.
  - destruct (c <? 0x10000)%N;
      (apply Hesc; [lia|]; apply Hesc; [lia|]; apply hex_fixed_printable).
Qed.

Lemma unicode_escape_printable (s : str) :
  Forall printable_ascii (unicode_escape s).
Proof.
  unfold unicode_escape. induction s as [|c s IH]; simpl; [constructor|].
  apply Forall_app. split; [apply unicode_escape_char_printable | exact IH].
Qed.

Lemma Forall_firstn_keeps {A} (P : A -> Prop) (n : nat) :
  forall l, Forall P l -> Forall P (firstn n l).
Proof.
  induction n as [|n IH]; intros l H; simpl; [constructor|].
  destruct H; constructor; auto.
Qed.

Lemma slice_to_firstn {A} (s : list A) (stop : Z) :
  0 <= stop <= Z.of_nat (length s) ->
  slice_to s stop = firstn (Z.to_nat stop) s.
Proof.
  intros H. unfold slice_to.
  destruct (Z.ltb_spec stop 0); [lia|].
  now rewrite Z.min_l by lia.
Qed.

(** C9, as the code has it: for [max_len] of at least 3 the rendered line
    has at most [max_len] characters; it is the escaped form unchanged when
    that has at most [max_len] characters, and otherwise the first
    [max_len - 3] characters of the escaped form followed by three dots,
    [max_len] characters in all; and it holds printable ASCII only. *)
Theorem render_line_spec (line : str) (max_len : Z) :
  3 <= max_len ->
  Z.of_nat (length (_render_line line max_len)) <= max_len
  /\ (Z.of_nat (length (unicode_escape line)) <= max_len ->
      _render_line line max_len = unicode_escape line)
  /\ (Z.of_nat (length (unicode_escape line)) > max_len ->
      _render_line line max_len
        = firstn (Z.to_nat (max_len - 3)) (unicode_escape line) ++ lit "..."
      /\ Z.of_nat (length (_render_line line max_len)) = max_len)
  /\ Forall printable_ascii (_render_line line max_len).
Proof.
  intros Hmax. unfold _render_line.
  pose proof (unicode_escape_printable line) as Hprint.
  set (rendered := unicode_escape line) in *.
  destruct (Z.gtb_spec (Z.of_nat (length rendered)) max_len) as [Hlong | Hshort].
  - rewrite slice_to_firstn by lia.
    assert (Hlen : Z.of_nat (length
              (firstn (Z.to_nat (max_len - 3)) rendered ++ lit "...")) = max_len).
    { rewrite length_app, firstn_length_le by lia. simpl. lia. }
    repeat split; try lia; try reflexivity; try assumption.
    apply Forall_app. split.
    + now apply Forall_firstn_keeps.
    + repeat constructor; unfold printable_ascii; simpl; lia.
  - repeat split; try lia; try reflexivity; try assumption.
Qed.

(** The bound at the default length, on the line of 300 letters x. *)
Lemma render_line_spec_witness :
  3 <= default_max_len
  /\ Z.of_nat (length (_render_line (repeat 120%N 300) default_max_len))
     <= default_max_len.
Proof.
  split; [unfold default_max_len; lia|].
  apply (render_line_spec (repeat 120%N 300) default_max_len).
  unfold default_max_len; lia.
Defined.

(** C9 as stated fails twice: a short line that itself ends in three dots
    is returned unchanged, so the result ends with the marker although the
    escaped form is not longer than the maximum; and below a maximum of 3
    the truncated result is longer than the maximum. *)
Lemma render_line_marker_counterexample :
  (ends_with (_render_line (lit "...") default_max_len) (lit "...")
   /\ ~ Z.of_nat (length (unicode_escape (lit "..."))) > default_max_len)
  /\ Z.of_nat (length (_render_line (lit "abc") 2)) > 2.
Proof.
  split; [split|].
  - exists []. reflexivity.
  - vm_compute. discriminate.
  - vm_compute. reflexivity.
Qed.

(** *** DiffParser *)

(** The matcher finds only matches of the pattern. *)
Lemma greedy_sound {A} (r : regex) (body : matcher A) :
  sound_for r body ->
  forall n, sound_for (Plus r) (fun p s g k => greedy body n k p s g).
Proof.
  intros Hbody n. induction n as [|n IHn]; intros p s g k a H; simpl in H;
    [discriminate|].
  apply Hbody in H. destruct H as (p1 & s1 & g1 & H1 & H).
  destruct (greedy body n k p1 s1 g1) eqn:E.
  - injection H as <-. apply IHn in E. destruct E as (p2 & s2 & g2 & H2 & E).
    eauto 10 using Sem.
  - eauto 10 using Sem.
Qed.

Lemma lazy_sound {A} (r : regex) (body : matcher A) :
  sound_for r body ->
  forall n, sound_for (PlusLazy r) (fun p s g k => lazy body n k p s g).
Proof.
  intros Hbody n. induction n as [|n IHn]; intros p s g k a H; simpl in H;
    [discriminate|].
  apply Hbody in H. destruct H as (p1 & s1 & g1 & H1 & H).
  destruct (k p1 s1 g1) eqn:E.
  - injection H as <-. eauto 10 using Sem.
  - apply IHn in H. destruct H as (p2 & s2 & g2 & H2 & H).
    eauto 10 using Sem.
Qed.

Lemma rmatch_sound (r : regex) : forall A, sound_for r (@rmatch A r).
Proof.
  induction r as [ | | | c | | r1 IH1 r2 IH2 | r IH | r IH | r IH | name r IH];
    intros A p s g k a H.
  - simpl in H. eauto 10 using Sem.
  - simpl in H. destruct p; simpl in H; [eauto 10 using Sem | discriminate].
  - simpl in H. destruct s as [|c [|d s]]; try discriminate.
    + exists p, [], g. split; [constructor; auto | assumption].
    + destruct (N.eqb_spec c 0x0A%N); [subst | discriminate].
      exists p, [0x0A%N], g. split; [constructor; auto | assumption].
  - simpl in H. destruct s as [|x s]; [discriminate|].
    destruct (N.eqb_spec x c); [subst | discriminate]. eauto 10 using Sem.
  - simpl in H. destruct s as [|x s]; [discriminate|].
    destruct (N.eqb_spec x 0x0A%N); [discriminate|]. eauto 10 using Sem.
  - simpl in H. apply IH1 in H. destruct H as (p1 & s1 & g1 & H1 & H).
    apply IH2 in H. destruct H as (p2 & s2 & g2 & H2 & H).
    eauto 10 using Sem.
  - simpl in H. destruct (rmatch r p s g k) eqn:E.
    + injection H as <-. apply IH in E. destruct E as (p1 & s1 & g1 & H1 & E).
      eauto 10 using Sem.
    + eauto 10 using Sem.
  - exact (greedy_sound r (rmatch r) (IH A) _ p s g k a H).
  - exact (lazy_sound r (rmatch r) (IH A) _ p s g k a H).
  - simpl in H. apply IH in H. destruct H as (p1 & s1 & g1 & H1 & H).
    eauto 10 using Sem.
Qed.

Lemma re_match_sound (r : regex) (s : str) (gs : groups) :
  re_match r s = Some gs -> exists p' s', Sem r 0 s [] p' s' gs.
Proof.
  unfold re_match. intros H. apply rmatch_sound in H.
  destruct H as (p' & s' & g' & H & [= <-]). eauto.
Qed.

(** A match never moves backwards. *)
Lemma Sem_pos_le r p s g p' s' g' : Sem r p s g p' s' g' -> (p <= p')%nat.
Proof. induction 1; lia. Qed.

Lemma Sem_plus_chr c p s g p' s' g' :
  Sem (Plus (Chr c)) p s g p' s' g' -> g' = g /\ (p < p')%nat.
Proof.
  intros H. remember (Plus (Chr c)) as r eqn:Er.
  induction H; inversion Er; subst.
  - inversion H; subst. split; [reflexivity | lia].
  - inversion H; subst. destruct (IHSem2 eq_refl) as [-> Hlt].
    split; [reflexivity | lia].
Qed.

Ltac invert_sem :=
  repeat match goal with
  | H : Sem (Seq _ _) _ _ _ _ _ _ |- _ => inversion H; subst; clear H
  | H : Sem (Chr _) _ _ _ _ _ _ |- _ => inversion H; subst; clear H
  | H : Sem Bol _ _ _ _ _ _ |- _ => inversion H; subst; clear H
  | H : Sem Eps _ _ _ _ _ _ |- _ => inversion H; subst; clear H
  | H : Sem (Group _ _) _ _ _ _ _ _ |- _ => inversion H; subst; clear H
  | H : Sem (Opt _) _ _ _ _ _ _ |- _ => inversion H; subst; clear H
  | H : Sem (Plus (Chr _)) _ _ _ _ _ _ |- _ =>
      apply Sem_plus_chr in H; destruct H as [? ?]; subst
  end.

(** Whatever line the hunk pattern matches, its group [start] begins with
    a backslash. *)
Lemma hunk_start_backslash (raw : str) (gs : groups) :
  re_match _HUNK_RE raw = Some gs ->
  exists t, group gs "start" = Some (92%N :: t).
Proof.
  intros H. apply re_match_sound in H. destruct H as (p' & s' & H).
  unfold _HUNK_RE, backslash_d_plus in H. simpl in H.
  invert_sem.
  all: simpl.
  all: match goal with
       | |- context [firstn (?a - ?b) (_ :: _)] =>
           destruct (a - b)%nat eqn:E; [lia|]
       end.
  all: simpl; eauto.
Qed.

Lemma lstrip_keeps_last (sp : char -> bool) (c : char) :
  sp c = false ->
  forall l, exists l', lstrip_with sp (l ++ [c]) = l' ++ [c].
Proof.
  intros Hc l. induction l as [|x l IH]; simpl.
  - rewrite Hc. now exists [].
  - destruct (sp x); [exact IH | now exists (x :: l)].
Qed.

Lemma strip_keeps_first (sp : char -> bool) (c : char) (t : str) :
  sp c = false -> exists t', strip_with sp (c :: t) = c :: t'.
Proof.
  intros Hc. unfold strip_with. simpl lstrip_with at 2. rewrite Hc.
  simpl rev at 2.
  destruct (lstrip_keeps_last sp c Hc (rev t)) as [l' ->].
  rewrite rev_app_distr. simpl. eauto.
Qed.

(** [int] rejects text that begins with a backslash. *)
Lemma int_of_backslash (t : str) : int_of_str (92%N :: t) = Raise ValueError.
Proof.
  unfold int_of_str. cbv zeta.
  destruct (strip_keeps_first is_ascii_space 92%N t eq_refl) as [t' E].
  unfold char in E. rewrite E. reflexivity.
Qed.

(** No line of a diff sets the line counter, so no row is ever added. *)
Lemma parse_diff_line_no_counter (st st' : DiffState) (raw : str) :
  parse_diff_line st raw = Ok st' ->
  new_line st = None -> rows st = [] ->
  new_line st' = None /\ rows st' = [].
Proof.
  unfold parse_diff_line. intros H Hnl Hrows.
  destruct (re_match _DIFF_HEADER_RE raw) as [m|].
  - destruct (shlex_split raw) as [parts|e]; simpl in H; [|discriminate].
    injection H as <-. simpl. auto.
  - destruct (re_match _HUNK_RE raw) as [m|] eqn:Hm.
    + apply hunk_start_backslash in Hm. destruct Hm as [t Hg].
      rewrite Hg, int_of_backslash in H. discriminate.
    + rewrite Hnl in H. destruct (current_path st); injection H as <-; auto.
Qed.

Lemma parse_diff_lines_no_counter (lines : list str) :
  forall st st',
    parse_diff_lines st lines = Ok st' ->
    new_line st = None -> rows st = [] ->
    rows st' = [].
Proof.
  induction lines as [|raw lines IH]; simpl; intros st st' H Hnl Hrows.
  - injection H as <-. assumption.
  - destruct (parse_diff_line st raw) as [st1|e] eqn:E; simpl in H; [|discriminate].
    destruct (parse_diff_line_no_counter _ _ _ E Hnl Hrows) as [Hnl1 Hrows1].
    eauto.
Qed.

Lemma parse_diff_added_lines_empty (diff_text : str) (added : list (str * Z * str)) :
  _parse_diff_added_lines diff_text = Ok added -> added = [].
Proof.
  unfold _parse_diff_added_lines. intros H.
  destruct (parse_diff_lines _ (splitlines diff_text)) as [st|e] eqn:E;
    simpl in H; [|discriminate].
  injection H as <-. eapply parse_diff_lines_no_counter; eauto.
Qed.

(** C1: on the six-line diff of the worked example the parser returns no
    row at all: the hunk pattern does not match the header
    [@@ -1,2 +1,3 @@], so the line counter is never set and the two added
    lines are skipped. *)
Theorem parse_example_diff_returns_no_row :
  re_match _HUNK_RE (lit "@@ -1,2 +1,3 @@") = None
  /\ _parse_diff_added_lines example_diff = Ok [].
Proof. split; reflexivity. Qed.

(** C10: on the header of a rename from [it's.txt], whose quote has no
    partner, the parser raises [ValueError] instead of returning a list. *)
Theorem parse_unbalanced_quote_raises :
  shlex_split (lit "diff --git it's.txt renamed.txt") = Raise ValueError
  /\ _parse_diff_added_lines rename_diff = Raise ValueError.
Proof. split; reflexivity. Qed.

(** *** ScanOrchestrator *)

Lemma read_tokens_raises (input : str) :
  forall lx acc e, read_tokens lx input acc = Raise e -> e = ValueError.
Proof.
  induction input as [|c rest IH]; intros lx acc e H; simpl in H.
  - destruct (state lx); congruence.
  - repeat match type of H with
    | context [match ?x with _ => _ end] => destruct x
    end; eauto.
Qed.

Lemma int_of_str_raises (s : str) (e : exn) :
  int_of_str s = Raise e -> e = ValueError.
Proof.
  unfold int_of_str. cbv zeta.
  repeat match goal with
  | |- context [match ?x with _ => _ end] => destruct x
  end; congruence.
Qed.

Lemma parse_diff_line_raises (st : DiffState) (raw : str) (e : exn) :
  parse_diff_line st raw = Raise e -> e = ValueError.
Proof.
  unfold parse_diff_line. intros H.
  destruct (re_match _DIFF_HEADER_RE raw).
  - destruct (shlex_split raw) eqn:E; simpl in H; [discriminate|].
    injection H as <-. eapply read_tokens_raises. exact E.
  - destruct (re_match _HUNK_RE raw).
    + destruct (int_of_str _) eqn:E; simpl in H; [discriminate|].
      injection H as <-. eapply int_of_str_raises. exact E.
    + repeat match type of H with
      | context [match ?x with _ => _ end] => destruct x
      end; discriminate.
Qed.

Lemma parse_diff_lines_raises (lines : list str) :
  forall st e, parse_diff_lines st lines = Raise e -> e = ValueError.
Proof.
  induction lines as [|raw lines IH]; simpl; intros st e H; [discriminate|].
  destruct (parse_diff_line st raw) eqn:E; simpl in H.
  - eauto.
  - injection H as <-. eapply parse_diff_line_raises. exact E.
Qed.

Lemma parse_diff_added_lines_raises (diff_text : str) (e : exn) :
  _parse_diff_added_lines diff_text = Raise e -> e = ValueError.
Proof.
  unfold _parse_diff_added_lines. intros H.
  destruct (parse_diff_lines _ _) eqn:E; simpl in H; [discriminate|].
  injection H as <-. eapply parse_diff_lines_raises. exact E.
Qed.

(** The heuristic returns a verdict for every byte string. *)
Lemma is_probably_binary_returns (data : list byte) :
  exists b, _is_probably_binary data = Ok b.
Proof.
  unfold _is_probably_binary.
  destruct (existsb _ data); [eauto|].
  destruct (firstn 4096 data) as [|b0 sample]; [eauto|].
  unfold truediv.
  destruct (Z.eqb_spec (Z.of_nat (length (b0 :: sample))) 0) as [E|_];
    [simpl in E; lia|].
  simpl. eauto.
Qed.

Section Orchestrator.

Context {L : Library} {W : World}.

Lemma scan_text_ok (p text : str) (start : Z) :
  1 <= start -> Forall finding_ok (_scan_text p text start).
Proof.
  intros Hstart. apply Forall_forall. intros f Hf. unfold _scan_text in Hf.
  apply in_flat_map in Hf. destruct Hf as ([i ln] & Hi & Hf).
  apply in_flat_map in Hf. destruct Hf as ([j ch] & Hj & Hf).
  destruct (_is_forbidden_char ch); simpl in Hf; [|contradiction].
  destruct Hf as [<- | []].
  apply enumerate_fst_ge in Hi. apply enumerate_fst_ge in Hj.
  pose proof (ord_nonneg ch). unfold finding_ok. simpl. lia.
Qed.

Lemma scan_file_ok (root file : str) (fs : list Finding) :
  _scan_file root file = Ok fs -> Forall finding_ok fs.
Proof.
  unfold _scan_file. intros H.
  destruct (relative_posix root file) as [rel|]; [|discriminate].
  destruct (read_bytes file) as [data|].
  - destruct (is_probably_binary_returns data) as [b Hb]. rewrite Hb in H.
    simpl in H. destruct b; injection H as <-.
    + constructor.
    + apply scan_text_ok. lia.
  - injection H as <-. constructor.
Qed.

Lemma scan_file_raises (root file : str) (e : exn) :
  _scan_file root file = Raise e -> e = ValueError.
Proof.
  unfold _scan_file. intros H.
  destruct (relative_posix root file) as [rel|]; [|congruence].
  destruct (read_bytes file) as [data|]; [|discriminate].
  destruct (is_probably_binary_returns data) as [b Hb]. rewrite Hb in H.
  simpl in H. destruct b; discriminate.
Qed.

Lemma scan_files_ok (root : str) (files : list str) :
  forall fs, scan_files root files = Ok fs -> Forall finding_ok fs.
Proof.
  induction files as [|p files IH]; simpl; intros fs H.
  - injection H as <-. constructor.
  - destruct (_scan_file root p) as [f1|] eqn:E1; simpl in H; [|discriminate].
    destruct (scan_files root files) as [f2|]; simpl in H; [|discriminate].
    injection H as <-. apply Forall_app. split; [eapply scan_file_ok|]; eauto.
Qed.

Lemma scan_files_raises (root : str) (files : list str) :
  forall e, scan_files root files = Raise e -> e = ValueError.
Proof.
  induction files as [|p files IH]; simpl; intros e H; [discriminate|].
  destruct (_scan_file root p) as [f1|e1] eqn:E1; simpl in H.
  - destruct (scan_files root files) as [f2|e2]; simpl in H; [discriminate|].
    injection H as <-. auto.
  - injection H as <-. eapply scan_file_raises. exact E1.
Qed.

(** As the hunk pattern stands the diff parser yields no row, so a diff
    scan that returns has nothing to report. *)
Lemma scan_git_diff_returns_nothing (root : str) (dargs : list str) (fs : list Finding) :
  _scan_git_diff root dargs = Ok fs -> fs = [].
Proof.
  unfold _scan_git_diff. cbv zeta. intros H.
  destruct (negb _); [discriminate|].
  destruct (_parse_diff_added_lines _) as [added|] eqn:E; simpl in H;
    [|discriminate].
  apply parse_diff_added_lines_empty in E. subst added.
  injection H as <-. reflexivity.
Qed.

Lemma scan_git_diff_fails (root : str) (dargs : list str) :
  diff_fails root dargs ->
  exists message, _scan_git_diff root dargs = Raise (RuntimeError message).
Proof.
  unfold diff_fails, _scan_git_diff. cbv zeta. intros H.
  destruct (Z.eqb_spec (returncode (run_git root (diff_command dargs))) 0);
    [contradiction|].
  simpl. eauto.
Qed.

Lemma scan_git_diff_runtime_error (root : str) (dargs : list str) (message : str) :
  _scan_git_diff root dargs = Raise (RuntimeError message) ->
  diff_fails root dargs.
Proof.
  unfold diff_fails, _scan_git_diff. cbv zeta. intros H.
  destruct (Z.eqb_spec (returncode (run_git root (diff_command dargs))) 0)
    as [E|E]; [|exact E].
  simpl in H.
  destruct (_parse_diff_added_lines _) as [added|e] eqn:Ep; simpl in H;
    [discriminate|].
  apply parse_diff_added_lines_raises in Ep. congruence.
Qed.

Lemma gather_ok (args : Args) (root : str) (fs : list Finding) :
  gather args root = Ok fs -> Forall finding_ok fs.
Proof.
  unfold gather. intros H.
  destruct (all args); [eapply scan_files_ok; eauto|].
  assert (Hdiff : forall dargs f, _scan_git_diff root dargs = Ok f ->
                                  Forall finding_ok f).
  { intros dargs f Hf. apply scan_git_diff_returns_nothing in Hf.
    subst f. constructor. }
  destruct (base args) as [[|c ref]|]; [| eauto | ].
  1,2: destruct (staged args).
  all: destruct (_scan_git_diff root [lit "--cached"]) as [f1|] eqn:E1;
       simpl in H; [|discriminate].
  all: try (destruct (_scan_git_diff root []) as [f2|] eqn:E2;
            simpl in H; [|discriminate]).
  all: destruct (scan_files root (_collect_untracked root)) as [f3|] eqn:E3;
       simpl in H; [|discriminate].
  all: injection H as <-.
  all: repeat (apply Forall_app; split); eauto using scan_files_ok.
Qed.

Lemma gather_runtime_error (args : Args) (root : str) (message : str) :
  gather args root = Raise (RuntimeError message) ->
  meets_diff_failure args root.
Proof.
  unfold gather, meets_diff_failure. intros H.
  destruct (all args).
  { apply scan_files_raises in H. discriminate. }
  split; [reflexivity|].
  assert (Hfiles : forall files, scan_files root files
                                 <> Raise (RuntimeError message)).
  { intros files Hf. apply scan_files_raises in Hf. discriminate. }
  destruct (base args) as [[|c ref]|];
    [| eapply scan_git_diff_runtime_error; eauto | ].
  1,2: destruct (staged args).
  all: destruct (_scan_git_diff root [lit "--cached"]) as [f1|e1] eqn:E1;
       simpl in H;
       [| injection H as ->; left; eapply scan_git_diff_runtime_error; eauto].
  all: try (destruct (_scan_git_diff root []) as [f2|e2] eqn:E2; simpl in H;
            [| injection H as ->; right; repeat split; eauto;
               eapply scan_git_diff_runtime_error; eauto]).
  all: destruct (scan_files root (_collect_untracked root)) as [f3|e3] eqn:E3;
       simpl in H; [discriminate|].
  all: injection H as ->; exfalso; eapply Hfiles; eauto.
Qed.

Lemma gather_meets_diff_failure (args : Args) (root : str) :
  meets_diff_failure args root ->
  exists message, gather args root = Raise (RuntimeError message).
Proof.
  unfold gather, meets_diff_failure. intros [Hall H]. rewrite Hall.
  destruct (base args) as [[|c ref]|]; [| now apply scan_git_diff_fails | ].
  all: destruct H as [H | (Hstaged & [f1 Hf1] & H)];
       apply scan_git_diff_fails in H; destruct H as [message H].
  1,3: rewrite H; destruct (staged args); simpl; eauto.
  all: rewrite Hstaged, Hf1, H; simpl; eauto.
Qed.

End Orchestrator.

Section RunClaims.

Context {L : Library} {W : World}.

(** C8: every finding a scan path produces has line >= 1, column >= 1 and
    code point >= 0: the scan of a text from line 1, the scan of a file,
    the scan of a diff, and the findings a whole run gathers in any mode. *)
Theorem findings_satisfy_invariant :
  (forall p text, Forall finding_ok (_scan_text p text 1))
  /\ (forall root file fs,
        _scan_file root file = Ok fs -> Forall finding_ok fs)
  /\ (forall root dargs fs,
        _scan_git_diff root dargs = Ok fs -> Forall finding_ok fs)
  /\ (forall args fs,
        gather args _repo_root = Ok fs -> Forall finding_ok fs).
Proof.
  repeat split.
  - intros p text. apply scan_text_ok. lia.
  - apply scan_file_ok.
  - intros root dargs fs H. apply scan_git_diff_returns_nothing in H.
    subst fs. constructor.
  - intros args fs. apply gather_ok.
Qed.

(** C7: a run whose gathered findings are empty exits with 0; one whose
    findings are not empty exits with 1 and prints them; a run that meets a
    [git diff] exiting nonzero exits with 2, prints nothing on the standard
    output and reports the error on the error stream; and exit code 2
    arises in no other way. *)
Theorem exit_code_of_run (args : Args) :
  (gather args _repo_root = Ok [] -> main args = Ok clean_outcome)
  /\ (forall f fs, gather args _repo_root = Ok (f :: fs) ->
        exists o, main args = Ok o /\ exit_code o = 1
          /\ printed o = lit "FAIL: invisible/suspicious characters found:"
                         :: map report_line (f :: fs))
  /\ (meets_diff_failure args _repo_root ->
        exists message, main args = Ok (fatal_outcome message))
  /\ (forall o, main args = Ok o -> exit_code o = 2 ->
        meets_diff_failure args _repo_root /\ printed o = []).
Proof.
  unfold main. cbv zeta. split; [|split; [|split]].
  - intros ->. reflexivity.
  - intros f fs ->. unfold report. eexists.
    split; [reflexivity|]. split; reflexivity.
  - intros H. apply gather_meets_diff_failure in H. destruct H as [message ->].
    exists message. reflexivity.
  - intros o H Hcode.
    destruct (gather args _repo_root) as [[|f fs]|[| | |message]] eqn:E;
      simpl in H; try discriminate; injection H as <-; simpl in Hcode;
      try discriminate.
    split; [|reflexivity].
    eapply gather_runtime_error. exact E.
Qed.

(** C2, as the code has it: a listing command that exits nonzero is not
    fatal; the listing counts as empty.  In All mode the run then ends with
    the clean outcome, exit code 0; in the Staged and Default modes the
    outcome is that of the diff scans alone. *)
Theorem listing_failure_is_absorbed (args : Args) :
  (all args = true ->
   returncode (run_git _repo_root [lit "ls-files"]) <> 0 ->
   main args = Ok clean_outcome)
  /\ (all args = false ->
      returncode (run_git _repo_root
        [lit "ls-files"; lit "--others"; lit "--exclude-standard"]) <> 0 ->
      main args = report (gather_diffs args _repo_root)).
Proof.
  unfold main, gather, gather_diffs, _collect_tracked_files,
    _collect_untracked, collect_listed. cbv zeta.
  split; intros Hall Hrc; rewrite Hall.
  - destruct (Z.eqb_spec (returncode (run_git _repo_root [lit "ls-files"])) 0);
      [contradiction|].
    reflexivity.
  - match goal with
    | |- context [negb (?rc =? 0)] =>
        destruct (Z.eqb_spec rc 0); [contradiction|]
    end.
    simpl negb. cbv iota.
    destruct (base args) as [[|c ref]|]; try reflexivity.
    all: destruct (staged args).
    all: destruct (_scan_git_diff _repo_root [lit "--cached"]) as [f1|];
         simpl; try reflexivity.
    all: try (destruct (_scan_git_diff _repo_root []) as [f2|];
              simpl; try reflexivity).
    all: now rewrite ?app_nil_r.
Qed.

End RunClaims.

(** The invariant on the finding of a run over a file that holds U+200B. *)
Lemma findings_satisfy_invariant_witness :
  exists fs,
    @gather Sample.library Sample.one_file Sample.flag_all
            (@_repo_root Sample.library Sample.one_file) = Ok fs
    /\ fs <> [] /\ Forall finding_ok fs.
Proof.
  eexists. split; [vm_compute; reflexivity|]. split; [discriminate|].
  apply (proj2 (proj2 (proj2
           (@findings_satisfy_invariant Sample.library Sample.one_file)))
         Sample.flag_all).
  vm_compute. reflexivity.
Defined.

(** The three exit codes: nothing staged or changed, a tracked file that
    holds U+200B, and a directory that is no repository. *)
Lemma exit_code_of_run_witness :
  @main Sample.library Sample.one_file Sample.flag_none = Ok clean_outcome
  /\ (exists o, @main Sample.library Sample.one_file Sample.flag_all = Ok o
                /\ exit_code o = 1)
  /\ (exists message,
        @main Sample.library Sample.not_a_repository Sample.flag_none
        = Ok (fatal_outcome message)).
Proof.
  split; [|split].
  - apply (proj1 (@exit_code_of_run Sample.library Sample.one_file
                    Sample.flag_none)).
    vm_compute. reflexivity.
  - destruct (proj1 (proj2 (@exit_code_of_run Sample.library Sample.one_file
                              Sample.flag_all)) _ _
                    ltac:(vm_compute; reflexivity)) as (o & Ho & Hcode & _).
    exists o. split; assumption.
  - apply (proj1 (proj2 (proj2 (@exit_code_of_run Sample.library
                                  Sample.not_a_repository Sample.flag_none)))).
    split; [reflexivity|]. left. vm_compute. discriminate.
Defined.

(** A listing that fails in All mode, and one that fails in Staged mode. *)
Lemma listing_failure_is_absorbed_witness :
  @main Sample.library Sample.not_a_repository Sample.flag_all
    = Ok clean_outcome
  /\ @main Sample.library Sample.no_listing Sample.flag_staged
    = Ok clean_outcome.
Proof.
  split.
  - apply (proj1 (@listing_failure_is_absorbed Sample.library
                    Sample.not_a_repository Sample.flag_all)).
    + reflexivity.
    + vm_compute. discriminate.
  - rewrite (proj2 (@listing_failure_is_absorbed Sample.library
                      Sample.no_listing Sample.flag_staged)).
    + vm_compute. reflexivity.
    + reflexivity.
    + vm_compute. discriminate.
Defined.

(** C2 as stated fails: outside a repository [git ls-files] exits with
    128, and the run in All mode reports a clean outcome with exit code 0. *)
Lemma listing_failure_counterexample :
  returncode (@run_git Sample.not_a_repository
                (@_repo_root Sample.library Sample.not_a_repository)
                [lit "ls-files"]) = 128
  /\ @main Sample.library Sample.not_a_repository Sample.flag_all
     = Ok clean_outcome
  /\ exit_code clean_outcome = 0.
Proof. repeat split. Qed.

(** ** Further properties *)

(** *** TextScanner: what is reported, and where *)

Lemma enumerate_In {A} (xs : list A) :
  forall start i x,
    In (i, x) (enumerate xs start) <->
    exists n, nth_error xs n = Some x /\ i = start + Z.of_nat n.
Proof.
  induction xs as [|y xs IH]; intros start i x; simpl.
  - split; [contradiction | intros ([|n] & H & _); discriminate].
  - rewrite IH. split.
    + intros [[= <- <-] | (n & Hn & ->)].
      * exists O. split; [reflexivity | simpl; lia].
      * exists (S n). split; [assumption | lia].
    + intros ([|n] & Hn & ->); simpl in Hn.
      * left. injection Hn as <-. f_equal. simpl. lia.
      * right. exists n. split; [assumption | lia].
Qed.

Section ScannerMore.

Context {L : Library}.

(** X1: [_scan_text] reports exactly the forbidden characters of the
    lines of [splitlines], each at its place: the line index counted from
    [start_line], the column counted from 1. *)
Theorem scan_text_reports_exactly (p text : str) (start : Z) (f : Finding) :
  In f (_scan_text p text start) <->
  exists i ln j ch,
    nth_error (splitlines text) i = Some ln
    /\ nth_error ln j = Some ch
    /\ _is_forbidden_char ch = true
    /\ f = finding_at p start i ln j ch.
Proof.
  unfold _scan_text. rewrite in_flat_map. split.
  - intros ([li ln] & Hln & Hf). apply in_flat_map in Hf.
    destruct Hf as ([cj ch] & Hch & Hf).
    apply enumerate_In in Hln. destruct Hln as (i & Hi & ->).
    apply enumerate_In in Hch. destruct Hch as (j & Hj & ->).
    destruct (_is_forbidden_char ch) eqn:E; simpl in Hf; [|contradiction].
    destruct Hf as [<- | []]. exists i, ln, j, ch. auto.
  - intros (i & ln & j & ch & Hi & Hj & Hforb & ->).
    exists (start + Z.of_nat i, ln). split.
    + apply enumerate_In. eauto.
    + apply in_flat_map. exists (1 + Z.of_nat j, ch). split.
      * apply enumerate_In. eauto.
      * rewrite Hforb. simpl. left. reflexivity.
Qed.


Lemma scan_text_by_lines (p text : str) (start : Z) :
  _scan_text p text start
  = flat_map (fun '(i, ln) => column_findings p i ln (enumerate ln 1))
             (enumerate (splitlines text) start).
Proof. reflexivity. Qed.

Lemma StronglySorted_append {A} (R : A -> A -> Prop) (l1 l2 : list A) :
  StronglySorted R l1 -> StronglySorted R l2 ->
  (forall x y, In x l1 -> In y l2 -> R x y) ->
  StronglySorted R (l1 ++ l2).
Proof.
  intros H1 H2 Hcross. induction H1 as [|a l1 Hs IH Ha]; simpl; [assumption|].
  constructor.
  - apply IH. intros x y Hx Hy. apply Hcross; [right|]; assumption.
  - apply Forall_app. split; [assumption|].
    apply Forall_forall. intros y Hy. apply Hcross; [left; reflexivity | assumption].
Qed.

Lemma column_findings_sorted (p : str) (i : Z) (ln : str) (l : str) :
  forall c0,
    StronglySorted before (column_findings p i ln (enumerate l c0))
    /\ (forall f, In f (column_findings p i ln (enumerate l c0)) ->
           line f = i /\ c0 <= col f).
Proof.
  induction l as [|ch l IH]; intros c0; simpl.
  - split; [constructor | contradiction].
  - destruct (IH (c0 + 1)) as [Hs Hin]. fold (column_findings p i ln (enumerate l (c0 + 1))).
    destruct (_is_forbidden_char ch); simpl.
    + split.
      * constructor; [assumption|]. apply Forall_forall. intros g Hg.
        destruct (Hin g Hg) as [Hl Hc]. right. simpl. lia.
      * intros f [<- | Hf]; [simpl; lia|].
        destruct (Hin f Hf). lia.
    + split; [assumption|]. intros f Hf. destruct (Hin f Hf). lia.
Qed.

Lemma line_findings_sorted (p : str) (lines : list str) :
  forall s,
    StronglySorted before
      (flat_map (fun '(i, ln) => column_findings p i ln (enumerate ln 1))
                (enumerate lines s))
    /\ (forall f,
          In f (flat_map (fun '(i, ln) => column_findings p i ln (enumerate ln 1))
                         (enumerate lines s)) -> s <= line f).
Proof.
  induction lines as [|ln lines IH]; intros s; simpl.
  - split; [constructor | contradiction].
  - destruct (IH (s + 1)) as [Hs Hin].
    destruct (column_findings_sorted p s ln ln 1) as [Hrow Hrow_in].
    split.
    + apply StronglySorted_append; [assumption | assumption |].
      intros x y Hx Hy. left.
      destruct (Hrow_in x Hx) as [-> _]. apply Hin in Hy. lia.
    + intros f Hf. apply in_app_or in Hf. destruct Hf as [Hf | Hf].
      * destruct (Hrow_in f Hf). lia.
      * apply Hin in Hf. lia.
Qed.

(** X2: the findings come in document order: of two findings the earlier
    one in the list is on an earlier line, or on the same line at an
    earlier column; in particular no position is reported twice. *)
Theorem scan_text_in_document_order (p text : str) (start : Z) :
  StronglySorted before (_scan_text p text start).
Proof.
  rewrite scan_text_by_lines. apply line_findings_sorted.
Qed.

Lemma enumerate_shift {A} (xs : list A) (k : Z) :
  forall start,
    enumerate xs (start + k) = map (fun '(i, x) => (i + k, x)) (enumerate xs start).
Proof.
  induction xs as [|x xs IH]; intros start; simpl; [reflexivity|].
  f_equal. replace (start + k + 1) with (start + 1 + k) by lia. apply IH.
Qed.

Lemma column_findings_move_down (p : str) (i k : Z) (ln : str) (cols : list (Z * char)) :
  column_findings p (i + k) ln cols = map (move_down k) (column_findings p i ln cols).
Proof.
  induction cols as [|[j ch] cols IH]; simpl; [reflexivity|].
  fold (column_findings p (i + k) ln cols). fold (column_findings p i ln cols).
  rewrite map_app, IH. f_equal.
  destruct (_is_forbidden_char ch); reflexivity.
Qed.

(** X3: [start_line] only moves the line numbers: scanning from line
    [start + k] gives the findings of the scan from line [start], each [k]
    lines further down. *)
Theorem scan_text_start_line_offsets (p text : str) (start k : Z) :
  _scan_text p text (start + k) = map (move_down k) (_scan_text p text start).
Proof.
  rewrite !scan_text_by_lines, enumerate_shift.
  induction (enumerate (splitlines text) start) as [|[i ln] rest IH]; simpl;
    [reflexivity|].
  rewrite map_app, IH, column_findings_move_down. reflexivity.
Qed.

End ScannerMore.

(** Every line of [splitlines] is free of line boundaries. *)
Lemma splitlines_from_no_boundary (n : nat) :
  forall s cur,
    (length s <= n)%nat ->
    Forall (fun c => is_linebreak c = false) cur ->
    Forall (Forall (fun c => is_linebreak c = false)) (splitlines_from cur s).
Proof.
  induction n as [|n IH]; intros [|c rest] cur Hlen Hcur; simpl in *; try lia.
  - destruct cur; repeat constructor. now apply Forall_rev.
  - destruct cur; repeat constructor. now apply Forall_rev.
  - destruct (is_linebreak c) eqn:Hc.
    + constructor; [now apply Forall_rev|].
      destruct rest as [|d rest']; [constructor|].
      destruct (N.eqb c 13 && N.eqb d 10).
      * apply IH; [simpl in Hlen; lia | constructor].
      * apply IH; [lia | constructor].
    + apply IH; [lia | constructor; assumption].
Qed.

Lemma is_linebreak_boundary (c : char) :
  is_linebreak c = false -> ~ In (ord c) line_boundaries.
Proof.
  intros Hc Hin.
  assert (Hn : In c [0x0A; 0x0B; 0x0C; 0x0D; 0x1C; 0x1D; 0x1E; 0x85; 0x2028; 0x2029]%N).
  { unfold line_boundaries, ord in Hin. simpl in Hin. simpl.
    repeat (destruct Hin as [Hin | Hin]; [lia|]). contradiction. }
  apply str_in_In in Hn. unfold is_linebreak in Hc. congruence.
Qed.

Section ScannerNever.

Context {L : Library}.

(** X4: no finding ever carries one of the code points at which
    [splitlines] breaks a line (LF, VT, FF, CR, FS, GS, RS, NEL, U+2028,
    U+2029): these characters are consumed as line ends and never reach the
    classifier. *)
Theorem scan_text_never_reports_line_boundaries (p text : str) (start : Z) :
  Forall (fun f => ~ In (codepoint f) line_boundaries) (_scan_text p text start).
Proof.
  apply Forall_forall. intros f Hf. unfold _scan_text in Hf.
  apply in_flat_map in Hf. destruct Hf as ([i ln] & Hln & Hf).
  apply in_flat_map in Hf. destruct Hf as ([j ch] & Hch & Hf).
  destruct (_is_forbidden_char ch); simpl in Hf; [|contradiction].
  destruct Hf as [<- | []]. simpl.
  apply is_linebreak_boundary.
  apply enumerate_In in Hln. destruct Hln as (n & Hn & _).
  apply enumerate_In in Hch. destruct Hch as (m & Hm & _).
  apply nth_error_In in Hn. apply nth_error_In in Hm.
  pose proof (splitlines_from_no_boundary (length text) text [] (le_n _)
                (Forall_nil _)) as Hall.
  rewrite Forall_forall in Hall. specialize (Hall ln Hn).
  rewrite Forall_forall in Hall. exact (Hall ch Hm).
Qed.

End ScannerNever.

(** *** BinaryHeuristic: what decides the verdict *)

Lemma no_nul_existsb (data : list byte) :
  ~ In x00 data -> existsb (fun b => N.eqb (Byte.to_N b) 0) data = false.
Proof.
  intros H. destruct (existsb _ data) eqn:E; [|reflexivity].
  apply has_nul_In in E. contradiction.
Qed.

Lemma In_firstn_keeps {A} (x : A) (n : nat) :
  forall l, In x (firstn n l) -> In x l.
Proof.
  induction n as [|n IH]; intros [|y l] H; simpl in H; try contradiction.
  destruct H as [-> | H]; [left; reflexivity | right; auto].
Qed.

(** X5: without a NUL byte only the first 4096 bytes count: the verdict on
    the data is the verdict on that prefix. *)
Theorem is_probably_binary_reads_prefix (data : list byte) :
  ~ In x00 data ->
  _is_probably_binary data = _is_probably_binary (firstn 4096 data).
Proof.
  intros Hnul. unfold _is_probably_binary.
  rewrite no_nul_existsb by assumption.
  rewrite no_nul_existsb
    by (intros Hin; apply Hnul; eapply In_firstn_keeps; exact Hin).
  rewrite firstn_firstn, Nat.min_id. reflexivity.
Qed.

(** Five thousand letters: longer than the sample. *)
Lemma is_probably_binary_reads_prefix_witness :
  ~ In x00 (repeat x61 5000)
  /\ _is_probably_binary (repeat x61 5000)
     = _is_probably_binary (firstn 4096 (repeat x61 5000)).
Proof.
  assert (H : ~ In x00 (repeat x61 5000))
    by (intros Hin; apply repeat_spec in Hin; discriminate).
  split; [exact H | exact (is_probably_binary_reads_prefix _ H)].
Defined.

Lemma filter_nothing {A} (f : A -> bool) (l : list A) :
  Forall (fun x => f x = false) l -> filter f l = [].
Proof.
  induction 1 as [|x l Hx _ IH]; simpl; [reflexivity|]. now rewrite Hx.
Qed.

(** X6: data without any control byte other than tab, line feed and
    carriage return is never taken for binary, whatever its length and
    however many bytes are above 127. *)
Theorem text_bytes_are_not_binary (data : list byte) :
  Forall (fun b => is_control b = false) data ->
  _is_probably_binary data = Ok false.
Proof.
  intros Hdata.
  assert (Hnul : ~ In x00 data).
  { intros Hin. rewrite Forall_forall in Hdata. apply Hdata in Hin. discriminate. }
  unfold _is_probably_binary. rewrite no_nul_existsb by assumption.
  destruct (firstn 4096 data) as [|b0 sample] eqn:Hsample; [reflexivity|].
  rewrite <- Hsample. rewrite source_count.
  assert (Hnone : filter is_control (firstn 4096 data) = []).
  { apply filter_nothing. now apply Forall_firstn_keeps. }
  rewrite Hnone. simpl length at 1.
  assert (Hlen : (1 <= length (firstn 4096 data) <= 4096)%nat).
  { split; [rewrite Hsample; simpl; lia | apply firstn_le_length]. }
  unfold truediv.
  destruct (Z.eqb_spec (Z.of_nat (length (firstn 4096 data))) 0); [lia|].
  unfold bind. rewrite float_fraction_exceeds by lia.
  destruct (Z.ltb_spec (3 * Z.of_nat (length (firstn 4096 data))) (10 * Z.of_nat 0));
    [lia | reflexivity].
Qed.

(** The UTF-8 text of the sample file, with its bytes above 127. *)
Lemma text_bytes_are_not_binary_witness :
  _is_probably_binary Sample.notes_txt = Ok false.
Proof.
  apply text_bytes_are_not_binary. repeat constructor.
Defined.

(** *** DiffParser and the diff scan: what they can return *)

Lemma parse_diff_returns_nothing_or_raises_aux (diff_text : str) :
  _parse_diff_added_lines diff_text = Ok []
  \/ _parse_diff_added_lines diff_text = Raise ValueError.
Proof.
  destruct (_parse_diff_added_lines diff_text) as [added|e] eqn:E.
  - left. apply parse_diff_added_lines_empty in E. now subst.
  - right. apply parse_diff_added_lines_raises in E. now subst.
Qed.

(** X7: whatever the diff text, the parser returns the empty list or
    raises [ValueError]; it never returns a row, and it never sets the
    line counter: a line the hunk pattern matches makes [int] raise. *)
Theorem parse_diff_returns_nothing_or_raises (diff_text : str) :
  (_parse_diff_added_lines diff_text = Ok []
   \/ _parse_diff_added_lines diff_text = Raise ValueError)
  /\ (forall st raw, re_match _HUNK_RE raw <> None ->
        re_match _DIFF_HEADER_RE raw = None ->
        parse_diff_line st raw = Raise ValueError).
Proof.
  split; [apply parse_diff_returns_nothing_or_raises_aux|].
  intros st raw Hhunk Hheader. unfold parse_diff_line. rewrite Hheader.
  destruct (re_match _HUNK_RE raw) as [m|] eqn:Hm; [|contradiction].
  apply hunk_start_backslash in Hm. destruct Hm as [t ->].
  now rewrite int_of_backslash.
Qed.

Section RunsMore.

Context {L : Library} {W : World}.

(** X8: a diff scan has three outcomes.  When [git diff] exits nonzero it
    raises [RuntimeError] with a message that is never empty: the stripped
    error text, or [git diff failed] when that is empty.  When [git diff]
    exits with zero it returns no finding or raises [ValueError]. *)
Theorem scan_git_diff_outcomes (root : str) (dargs : list str) :
  (returncode (run_git root (diff_command dargs)) <> 0
   /\ exists message,
        _scan_git_diff root dargs = Raise (RuntimeError message)
        /\ message <> []
        /\ (message = strip (stderr (run_git root (diff_command dargs)))
            \/ (strip (stderr (run_git root (diff_command dargs))) = []
                /\ message = lit "git diff failed")))
  \/ (returncode (run_git root (diff_command dargs)) = 0
      /\ (_scan_git_diff root dargs = Ok []
          \/ _scan_git_diff root dargs = Raise ValueError)).
Proof.
  unfold _scan_git_diff. cbv zeta.
  destruct (Z.eqb_spec (returncode (run_git root (diff_command dargs))) 0)
    as [Hrc | Hrc]; simpl negb; cbv iota.
  - right. split; [assumption|].
    destruct (parse_diff_returns_nothing_or_raises_aux
                (stdout (run_git root (diff_command dargs)))) as [-> | ->];
      simpl; auto.
  - left. split; [assumption|].
    destruct (strip (stderr (run_git root (diff_command dargs)))) as [|c msg] eqn:E.
    + exists (lit "git diff failed"). repeat split; auto. discriminate.
    + exists (c :: msg). repeat split; auto. discriminate.
Qed.

Lemma scan_git_diff_raises (root : str) (dargs : list str) (e : exn) :
  _scan_git_diff root dargs = Raise e ->
  e = ValueError \/ exists message, e = RuntimeError message.
Proof.
  unfold _scan_git_diff. cbv zeta. intros H.
  destruct (negb _).
  - injection H as <-. eauto.
  - destruct (_parse_diff_added_lines _) as [added|e'] eqn:E; simpl in H;
      [discriminate|].
    injection H as <-. left. eapply parse_diff_added_lines_raises. exact E.
Qed.

Lemma scan_files_In (root : str) (files : list str) :
  forall fs f,
    scan_files root files = Ok fs -> In f fs ->
    exists file fs',
      In file files /\ _scan_file root file = Ok fs' /\ In f fs'.
Proof.
  induction files as [|p files IH]; simpl; intros fs f H Hf.
  - injection H as <-. contradiction.
  - destruct (_scan_file root p) as [f1|] eqn:E1; simpl in H; [|discriminate].
    destruct (scan_files root files) as [f2|] eqn:E2; simpl in H; [|discriminate].
    injection H as <-. apply in_app_or in Hf. destruct Hf as [Hf | Hf].
    + exists p, f1. auto.
    + destruct (IH f2 f eq_refl Hf) as (file & fs' & Hin & Hscan & Hin').
      exists file, fs'. auto.
Qed.


(** X9: every finding a run gathers stems from the full scan of a listed
    file: a tracked file in All mode, an untracked file otherwise, and
    then the run is not in BaseRef mode.  The diff scans contribute none. *)
Theorem findings_stem_from_files (args : Args) (fs : list Finding) (f : Finding) :
  gather args _repo_root = Ok fs -> In f fs ->
  exists file fs',
    In file (if all args then _collect_tracked_files _repo_root
             else _collect_untracked _repo_root)
    /\ (all args = false -> base args = None \/ base args = Some [])
    /\ _scan_file _repo_root file = Ok fs' /\ In f fs'.
Proof.
  unfold gather. intros H Hf.
  destruct (all args).
  { destruct (scan_files_In _ _ _ _ H Hf) as (file & fs' & Hin & Hscan & Hin').
    exists file, fs'. repeat split; auto. discriminate. }
  destruct (base args) as [[|c ref]|].
  2: { apply scan_git_diff_returns_nothing in H. subst fs. contradiction. }
  1,2: destruct (staged args).
  all: destruct (_scan_git_diff _repo_root [lit "--cached"]) as [f1|] eqn:E1;
       simpl in H; [|discriminate];
       apply scan_git_diff_returns_nothing in E1; subst f1.
  all: try (destruct (_scan_git_diff _repo_root []) as [f2|] eqn:E2;
            simpl in H; [|discriminate];
            apply scan_git_diff_returns_nothing in E2; subst f2).
  all: destruct (scan_files _repo_root (_collect_untracked _repo_root))
         as [f3|] eqn:E3; simpl in H; [|discriminate].
  all: injection H as <-; simpl in Hf.
  all: destruct (scan_files_In _ _ _ _ E3 Hf) as (file & fs' & Hin & Hscan & Hin').
  all: exists file, fs'; repeat split; auto.
Qed.

(** X10: a run in BaseRef mode never reports a finding: it ends with the
    clean outcome (exit code 0) or the fatal one (exit code 2), or it dies
    of an uncaught [ValueError]; exit code 1 cannot arise. *)
Theorem base_mode_never_reports (args : Args) (c : char) (ref : str) :
  all args = false -> base args = Some (c :: ref) ->
  main args = Ok clean_outcome
  \/ (exists message, main args = Ok (fatal_outcome message))
  \/ main args = Raise ValueError.
Proof.
  intros Hall Hbase. unfold main, gather. cbv zeta. rewrite Hall, Hbase.
  destruct (_scan_git_diff _repo_root [(c :: ref) ++ lit "...HEAD"])
    as [fs|e] eqn:E.
  - apply scan_git_diff_returns_nothing in E. subst fs. left. reflexivity.
  - apply scan_git_diff_raises in E. destruct E as [-> | [message ->]].
    + right. right. reflexivity.
    + right. left. exists message. reflexivity.
Qed.



Lemma collect_listed_files (root : str) (proc : CompletedProcess) :
  Forall (fun p =>
    is_file p = true
    /\ returncode proc = 0
    /\ exists ln, In ln (splitlines (stdout proc))
                  /\ strip ln <> [] /\ p = resolve_under root (strip ln))
    (collect_listed root proc).
Proof.
  apply Forall_forall. intros p Hp. unfold collect_listed in Hp.
  destruct (Z.eqb_spec (returncode proc) 0) as [Hrc|]; simpl in Hp;
    [|contradiction].
  apply in_flat_map in Hp. destruct Hp as (ln & Hln & Hp).
  destruct (strip ln) as [|c rel] eqn:Hrel; [contradiction|].
  destruct (is_file (resolve_under root (c :: rel))) eqn:Hfile;
    [|contradiction].
  destruct Hp as [<- | []].
  split; [assumption|]. split; [assumption|].
  exists ln. rewrite Hrel. repeat split; auto. discriminate.
Qed.

(** X13: the files [_collect_tracked_files] and [_collect_untracked] hand
    to the scanner are regular files, each named by a line of the listing
    that is not blank, and there are some only when the listing command
    exited with zero. *)
Theorem listed_files_are_files (root : str) :
  Forall (fun p =>
    is_file p = true
    /\ returncode (run_git root [lit "ls-files"]) = 0
    /\ exists ln,
         In ln (splitlines (stdout (run_git root [lit "ls-files"])))
         /\ strip ln <> [] /\ p = resolve_under root (strip ln))
    (_collect_tracked_files root)
  /\ Forall (fun p =>
    is_file p = true
    /\ returncode (run_git root [lit "ls-files"; lit "--others";
                                  lit "--exclude-standard"]) = 0
    /\ exists ln,
         In ln (splitlines (stdout (run_git root
                  [lit "ls-files"; lit "--others"; lit "--exclude-standard"])))
         /\ strip ln <> [] /\ p = resolve_under root (strip ln))
    (_collect_untracked root).
Proof.
  split; apply collect_listed_files.
Qed.

End RunsMore.

(** The tracked file of the sample repository is reported. *)
Lemma findings_stem_from_files_witness :
  exists f file fs',
    In file (@_collect_tracked_files Sample.library Sample.one_file
               (@_repo_root Sample.library Sample.one_file))
    /\ @_scan_file Sample.library Sample.one_file
         (@_repo_root Sample.library Sample.one_file) file = Ok fs'
    /\ In f fs' /\ codepoint f = 0x200B.
Proof.
  destruct (@findings_stem_from_files Sample.library Sample.one_file
              Sample.flag_all _ _
              ltac:(vm_compute; reflexivity)
              ltac:(left; reflexivity))
    as (file & fs' & Hlisted & _ & Hscan & Hin).
  eexists. exists file, fs'. repeat split; [exact Hlisted | exact Hscan | exact Hin |].
  reflexivity.
Defined.

(** Outside a repository the run in BaseRef mode is fatal. *)
Lemma base_mode_never_reports_witness :
  @main Sample.library Sample.not_a_repository (Sample.flag_base (lit "main"))
    = Ok clean_outcome
  \/ (exists message,
        @main Sample.library Sample.not_a_repository
          (Sample.flag_base (lit "main")) = Ok (fatal_outcome message))
  \/ @main Sample.library Sample.not_a_repository
        (Sample.flag_base (lit "main")) = Raise ValueError.
Proof.
  apply (@base_mode_never_reports Sample.library Sample.not_a_repository
           (Sample.flag_base (lit "main")) 109%N (lit "ain"));
    reflexivity.
Defined.



(** *** The snippet of a finding *)

Lemma render_line_default_safe (ln : str) :
  Z.of_nat (length (_render_line ln default_max_len)) <= 240
  /\ Forall printable_ascii (_render_line ln default_max_len).
Proof.
  unfold _render_line, default_max_len.
  pose proof (unicode_escape_printable ln) as Hprint.
  destruct (Z.gtb_spec (Z.of_nat (length (unicode_escape ln))) 240) as [Hlong|Hshort].
  - rewrite slice_to_firstn by lia. split.
    + rewrite length_app, firstn_length_le by lia. simpl. lia.
    + apply Forall_app. split; [now apply Forall_firstn_keeps|].
      repeat constructor; unfold printable_ascii; simpl; lia.
  - split; [lia | assumption].
Qed.

Section Snippets.

Context {L : Library}.

(** X14: every finding of a scan carries the path it was given and a
    snippet that is safe to print: the rendering of a line of the text, at
    most 240 characters, all of them printable ASCII. *)
Theorem scan_text_snippets_are_safe (p text : str) (start : Z) :
  Forall (fun f =>
    path f = p
    /\ (exists ln, In ln (splitlines text)
                   /\ rendered_line f = _render_line ln default_max_len)
    /\ Z.of_nat (length (rendered_line f)) <= 240
    /\ Forall printable_ascii (rendered_line f))
    (_scan_text p text start).
Proof.
  apply Forall_forall. intros f Hf. unfold _scan_text in Hf.
  apply in_flat_map in Hf. destruct Hf as ([i ln] & Hln & Hf).
  apply in_flat_map in Hf. destruct Hf as ([j ch] & Hch & Hf).
  destruct (_is_forbidden_char ch); simpl in Hf; [|contradiction].
  destruct Hf as [<- | []]. simpl.
  apply enumerate_In in Hln. destruct Hln as (n & Hn & _).
  apply nth_error_In in Hn.
  destruct (render_line_default_safe ln) as [Hlen Hprint].
  repeat split; eauto.
Qed.

End Snippets.

(** *** [strip_quotes] *)

Lemma lstrip_suffix (sp : char -> bool) (s : str) :
  exists front, s = front ++ lstrip_with sp s.
Proof.
  induction s as [|c s [front IH]]; simpl.
  - now exists [].
  - destruct (sp c).
    + exists (c :: front). simpl. now f_equal.
    + now exists [].
Qed.

Lemma lstrip_head (sp : char -> bool) (s : str) :
  match lstrip_with sp s with
  | [] => True
  | c :: _ => sp c = false
  end.
Proof.
  induction s as [|c s IH]; simpl; [exact I|].
  destruct (sp c) eqn:E; [exact IH | exact E].
Qed.

Lemma lstrip_fixed (sp : char -> bool) (s : str) :
  match s with [] => True | c :: _ => sp c = false end ->
  lstrip_with sp s = s.
Proof.
  destruct s as [|c s]; simpl; [reflexivity|]. now intros ->.
Qed.

Lemma lstrip_length (sp : char -> bool) (s : str) :
  (length (lstrip_with sp s) <= length s)%nat.
Proof.
  destruct (lstrip_suffix sp s) as [front H].
  rewrite H at 2. rewrite length_app. lia.
Qed.

Lemma strip_length (sp : char -> bool) (s : str) :
  (length (strip_with sp s) <= length s)%nat.
Proof.
  unfold strip_with. rewrite length_rev.
  etransitivity; [apply lstrip_length|].
  rewrite length_rev. apply lstrip_length.
Qed.

(** Stripping leaves nothing to strip. *)
Lemma strip_stripped (sp : char -> bool) (s : str) :
  strip_with sp (strip_with sp s) = strip_with sp s.
Proof.
  unfold strip_with.
  set (a := lstrip_with sp s). set (b := lstrip_with sp (rev a)).
  assert (Hb : lstrip_with sp b = b) by (apply lstrip_fixed, lstrip_head).
  assert (Ha : lstrip_with sp (rev b) = rev b).
  { apply lstrip_fixed.
    destruct (lstrip_suffix sp (rev a)) as [front Hfront]. fold b in Hfront.
    destruct (rev b) as [|c t] eqn:Hrev; [exact I|].
    assert (Hrb : rev (rev a) = rev b ++ rev front)
      by (rewrite Hfront at 1; apply rev_app_distr).
    rewrite rev_involutive, Hrev in Hrb. simpl in Hrb.
    pose proof (lstrip_head sp s) as Hhead. fold a in Hhead.
    rewrite Hrb in Hhead. exact Hhead. }
  rewrite Ha, rev_involutive, Hb. reflexivity.
Qed.

Section StripQuotes.

Context {L : Library}.

(** X15: [strip_quotes] keeps [None], and on text it returns text with no
    whitespace left at either end, never longer than what it was given. *)
Theorem strip_quotes_is_stripped (value : str) :
  strip_quotes None = None
  /\ exists r, strip_quotes (Some value) = Some r
               /\ strip r = r
               /\ (length r <= length value)%nat.
Proof.
  split; [reflexivity|]. unfold strip_quotes, strip. cbv zeta.
  destruct (_ || _).
  - eexists. split; [reflexivity|]. split; [apply strip_stripped|].
    etransitivity; [apply strip_length|].
    rewrite length_skipn. unfold slice_to. rewrite length_firstn.
    pose proof (strip_length isspace value). lia.
  - eexists. split; [reflexivity|]. split; [apply strip_stripped|].
    apply strip_length.
Qed.

(** X16: when the stripped text begins and ends with the same quote
    character, double or single, the result is the stripped text without
    its first and its last character, stripped again; a text that is one
    quote character alone becomes the empty text. *)
Theorem strip_quotes_removes_matching_quotes (value : str) (q : char) (body : str) :
  q = 34%N \/ q = 39%N ->
  strip value = q :: body ->
  endswith (q :: body) [q] = true ->
  strip_quotes (Some value) = Some (strip (removelast body)).
Proof.
  intros Hq Hvalue Hend. unfold strip_quotes. cbv zeta. rewrite Hvalue.
  assert (Hcond : (startswith (q :: body) [34%N] && endswith (q :: body) [34%N])
                  || (startswith (q :: body) [39%N] && endswith (q :: body) [39%N])
                  = true).
  { destruct Hq as [-> | ->]; unfold char in *; rewrite Hend; simpl;
      destruct body; reflexivity. }
  rewrite Hcond. do 2 f_equal.
  unfold slice_to. cbv zeta. change (-1 <? 0) with true. cbv iota.
  replace (Z.max 0 (-1 + Z.of_nat (length (q :: body))))
    with (Z.of_nat (length body)) by (simpl length; lia).
  rewrite Nat2Z.id.
  destruct body as [|c body]; [reflexivity|].
  simpl firstn. simpl skipn.
  rewrite removelast_firstn_len. reflexivity.
Qed.

End StripQuotes.

(** A double-quoted description with blanks around and inside the quotes. *)
Lemma strip_quotes_removes_matching_quotes_witness :
  @strip_quotes Sample.library
    (Some (lit "  " ++ [34%N] ++ lit " Scan for invisible characters " ++ [34%N]))
  = Some (lit "Scan for invisible characters").
Proof.
  rewrite (@strip_quotes_removes_matching_quotes Sample.library _ 34%N
             (lit " Scan for invisible characters " ++ [34%N])).
  - reflexivity.
  - left. reflexivity.
  - reflexivity.
  - reflexivity.
Defined.

(** *** DiffParser: the file header *)

Lemma plain_facts (c : char) :
  plain c ->
  str_in c whitespace = false /\ str_in c quotes = false
  /\ str_in c escape = false /\ N.eqb c 0x0A = false /\ N.eqb c 0x20 = false.
Proof.
  intros Hc. unfold plain in Hc. simpl in Hc.
  repeat split.
  1-3: match goal with |- ?b = false => destruct b eqn:E; [|reflexivity] end;
       apply str_in_In in E; simpl in E; exfalso; apply Hc; tauto.
  all: apply N.eqb_neq; intros ->; apply Hc; tauto.
Qed.

(** The lexer: a run of plain characters is one word. *)
Lemma read_word_more (w : str) :
  Forall plain w ->
  forall e qd tok rest acc,
    read_tokens {| state := LexWord; escapedstate := e; quoted := qd;
                   token := tok |} (w ++ rest) acc
    = read_tokens {| state := LexWord; escapedstate := e; quoted := qd;
                     token := tok ++ w |} rest acc.
Proof.
  induction 1 as [|c w Hc _ IH]; intros e qd tok rest acc; simpl app.
  - now rewrite app_nil_r.
  - destruct (plain_facts c Hc) as (Hws & Hq & Hesc & _).
    cbn [read_tokens state]. rewrite Hws, Hq, Hesc.
    unfold push. cbn [state escapedstate quoted token].
    rewrite IH. now rewrite <- app_assoc.
Qed.

Lemma read_word_start (c : char) (rest : str) (acc : list str) :
  plain c ->
  read_tokens (fresh LexBlank) (c :: rest) acc
  = read_tokens {| state := LexWord; escapedstate := LexBlank;
                   quoted := false; token := [c] |} rest acc.
Proof.
  intros Hc. destruct (plain_facts c Hc) as (Hws & Hq & Hesc & _).
  unfold fresh. cbn [read_tokens state escapedstate quoted token].
  rewrite Hws, Hesc, Hq. now destruct (in_wordchars c).
Qed.

Lemma read_plain_word (w rest : str) (acc : list str) :
  w <> [] -> Forall plain w ->
  read_tokens (fresh LexBlank) (w ++ 0x20%N :: rest) acc
  = read_tokens (fresh LexBlank) rest (acc ++ [w]).
Proof.
  intros Hne Hw. destruct w as [|c w]; [contradiction|].
  inversion Hw; subst. simpl app. rewrite read_word_start by assumption.
  rewrite read_word_more by assumption. reflexivity.
Qed.

Lemma read_last_word (w : str) (acc : list str) :
  w <> [] -> Forall plain w ->
  read_tokens (fresh LexBlank) w acc = Ok (acc ++ [w]).
Proof.
  intros Hne Hw. destruct w as [|c w]; [contradiction|].
  inversion Hw; subst. rewrite read_word_start by assumption.
  rewrite <- (app_nil_r w) at 1. rewrite read_word_more by assumption.
  reflexivity.
Qed.

(** The matcher: a literal, a lazy run and a greedy run of characters. *)
Lemma rmatch_literal {A} (s : str) (r : regex) :
  forall pos rest gs (k : kont A),
    rmatch (Str s r) pos (s ++ rest) gs k
    = rmatch r (pos + length s)%nat rest gs k.
Proof.
  induction s as [|c s IH]; intros pos rest gs k; simpl.
  - now rewrite Nat.add_0_r.
  - rewrite N.eqb_refl, IH. f_equal. lia.
Qed.

Lemma lazy_dot_run {A} (K : kont A) (rest : str) (gs : groups) (a : A) (w : str) :
  forall n pos,
    w <> [] -> Forall plain w -> (length w <= n)%nat ->
    (forall front back,
       w = front ++ back -> front <> [] -> back <> [] ->
       K (pos + length front)%nat (back ++ rest) gs = None) ->
    K (pos + length w)%nat rest gs = Some a ->
    lazy (rmatch Dot) n K pos (w ++ rest) gs = Some a.
Proof.
  induction w as [|c w IH]; intros n pos Hne Hw Hn Hmid Hend; [contradiction|].
  inversion Hw as [|? ? Hc Hw']; subst.
  destruct (plain_facts c Hc) as (_ & _ & _ & Hnl & _).
  destruct n as [|n]; [simpl in Hn; lia|].
  cbn [lazy rmatch app]. rewrite Hnl.
  destruct w as [|d w].
  - replace (pos + length [c])%nat with (S pos) in Hend by (simpl; lia).
    cbn [app]. now rewrite Hend.
  - assert (Hstep : K (S pos) ((d :: w) ++ rest) gs = None).
    { replace (S pos) with (pos + length [c])%nat by (simpl; lia).
      apply Hmid; [reflexivity | discriminate | discriminate]. }
    rewrite Hstep.
    apply IH; try assumption; try discriminate.
    + simpl in Hn. simpl. lia.
    + intros front back Hsplit Hf Hb.
      replace (S pos + length front)%nat with (pos + length (c :: front))%nat
        by (simpl; lia).
      apply Hmid; [rewrite Hsplit; reflexivity | discriminate | assumption].
    + replace (S pos + length (d :: w))%nat with (pos + length (c :: d :: w))%nat
        by (simpl; lia).
      exact Hend.
Qed.

Lemma rmatch_dot_cons {A} (c : char) (s : str) (pos : nat) (gs : groups)
    (k : kont A) :
  N.eqb c 0x0A = false -> rmatch Dot pos (c :: s) gs k = k (S pos) s gs.
Proof. intros H. simpl. now rewrite H. Qed.

Lemma greedy_nothing {A} (K : kont A) (n pos : nat) (gs : groups) :
  greedy (rmatch Dot) n K pos [] gs = None.
Proof. destruct n; reflexivity. Qed.

Lemma greedy_dot_all {A} (K : kont A) (gs : groups) (a : A) (w : str) :
  forall n pos,
    w <> [] -> Forall (fun c => N.eqb c 0x0A = false) w ->
    (length w <= n)%nat ->
    K (pos + length w)%nat [] gs = Some a ->
    greedy (rmatch Dot) n K pos w gs = Some a.
Proof.
  induction w as [|c w IH]; intros n pos Hne Hw Hn Hend; [contradiction|].
  inversion Hw as [|? ? Hnl Hw']; subst.
  destruct n as [|n]; [simpl in Hn; lia|].
  cbn [greedy]. rewrite rmatch_dot_cons by assumption.
  destruct w as [|d w].
  - rewrite greedy_nothing.
    replace (pos + length [c])%nat with (S pos) in Hend by (simpl; lia).
    exact Hend.
  - rewrite (IH n (S pos)); try reflexivity; try assumption; try discriminate.
    + simpl in Hn. simpl. lia.
    + replace (S pos + length (d :: w))%nat with (pos + length (c :: d :: w))%nat
        by (simpl; lia).
      exact Hend.
Qed.

Lemma plain_no_newline (w : str) :
  Forall plain w -> Forall (fun c => N.eqb c 0x0A = false) w.
Proof.
  intros H. eapply Forall_impl; [|exact H].
  intros c Hc. now destruct (plain_facts c Hc) as (_ & _ & _ & Hnl & _).
Qed.

(** The header pattern matches a header whose first path is plain. *)
Lemma header_matches (old new : str) :
  old <> [] -> new <> [] -> Forall plain old ->
  Forall (fun c => N.eqb c 0x0A = false) new ->
  exists m,
    re_match _DIFF_HEADER_RE (lit "diff --git " ++ old ++ [0x20%N] ++ new)
    = Some m.
Proof.
  intros Ho Hn Hold Hnew. unfold re_match, _DIFF_HEADER_RE.
  cbn [rmatch Nat.eqb]. rewrite rmatch_literal. cbn [rmatch].
  eexists.
  apply lazy_dot_run; try assumption.
  - rewrite length_app. lia.
  - intros front back Hsplit Hf Hb.
    destruct back as [|b back]; [contradiction|].
    assert (Hpb : plain b).
    { rewrite Forall_forall in Hold. apply Hold. rewrite Hsplit.
      apply in_or_app. right. left. reflexivity. }
    destruct (plain_facts b Hpb) as (_ & _ & _ & _ & Hsp).
    cbn [app rmatch]. now rewrite Hsp.
  - cbn [app rmatch]. rewrite N.eqb_refl.
    apply greedy_dot_all; try assumption.
    + lia.
    + cbn [rmatch]. reflexivity.
Qed.

Lemma keyword_plain (w : str) :
  w = lit "diff" \/ w = lit "--git" -> Forall plain w.
Proof.
  intros [-> | ->]; repeat constructor; unfold plain; simpl; lia.
Qed.

(** X17: a file header with two plain paths (no whitespace, quote or
    backslash in them) sets the current path to the second one, unsets the
    line counter and leaves the rows as they are. *)
Theorem header_sets_current_path (st : DiffState) (old new : str) :
  old <> [] -> new <> [] -> Forall plain old -> Forall plain new ->
  parse_diff_line st (lit "diff --git " ++ old ++ [0x20%N] ++ new)
  = Ok {| current_path := Some new; new_line := None; rows := rows st |}.
Proof.
  intros Ho Hn Hold Hnew. unfold parse_diff_line.
  destruct (header_matches old new Ho Hn Hold (plain_no_newline new Hnew))
    as [m ->].
  assert (Hsplit : shlex_split (lit "diff --git " ++ old ++ [0x20%N] ++ new)
                   = Ok [lit "diff"; lit "--git"; old; new]).
  { unfold shlex_split.
    change (lit "diff --git " ++ old ++ [0x20%N] ++ new)
      with (lit "diff" ++ 0x20%N :: lit "--git" ++ 0x20%N :: old ++ 0x20%N :: new).
    rewrite read_plain_word by (try discriminate; auto using keyword_plain).
    rewrite read_plain_word by (try discriminate; auto using keyword_plain).
    rewrite read_plain_word by assumption.
    rewrite read_last_word by assumption.
    reflexivity. }
  rewrite Hsplit. reflexivity.
Qed.

(** The header of the worked example. *)
Lemma header_sets_current_path_witness :
  parse_diff_line {| current_path := None; new_line := Some 7; rows := [] |}
    (lit "diff --git a.txt b.txt")
  = Ok {| current_path := Some (lit "b.txt"); new_line := None; rows := [] |}.
Proof.
  apply (header_sets_current_path
           {| current_path := None; new_line := Some 7; rows := [] |}
           (lit "a.txt") (lit "b.txt")).
  1,2: discriminate.
  all: repeat constructor; unfold plain; simpl; lia.
Defined.

(** X18: the current path is the fourth shell word of the header, not the
    new path: when the header carries four plain words after [--git], as
    it does for a file whose name holds one blank, the path is the second
    of them. *)
Theorem header_with_blanks_takes_fourth_word (st : DiffState) (a b c d : str) :
  a <> [] -> b <> [] -> c <> [] -> d <> [] ->
  Forall plain a -> Forall plain b -> Forall plain c -> Forall plain d ->
  parse_diff_line st
    (lit "diff --git " ++ a ++ [0x20%N] ++ b ++ [0x20%N] ++ c ++ [0x20%N] ++ d)
  = Ok {| current_path := Some b; new_line := None; rows := rows st |}.
Proof.
  intros Ha Hb Hc Hd Pa Pb Pc Pd. unfold parse_diff_line.
  assert (Hnew : Forall (fun x => N.eqb x 0x0A = false)
                        (b ++ [0x20%N] ++ c ++ [0x20%N] ++ d)).
  { repeat (apply Forall_app; split); auto using plain_no_newline;
      repeat constructor. }
  destruct (header_matches a (b ++ [0x20%N] ++ c ++ [0x20%N] ++ d) Ha
              ltac:(destruct b; [contradiction | discriminate]) Pa Hnew)
    as [m ->].
  assert (Hsplit :
    shlex_split (lit "diff --git " ++ a ++ [0x20%N] ++ b ++ [0x20%N] ++ c
                 ++ [0x20%N] ++ d)
    = Ok [lit "diff"; lit "--git"; a; b; c; d]).
  { unfold shlex_split.
    change (lit "diff --git " ++ a ++ [0x20%N] ++ b ++ [0x20%N] ++ c
            ++ [0x20%N] ++ d)
      with (lit "diff" ++ 0x20%N :: lit "--git" ++ 0x20%N :: a ++ 0x20%N ::
            b ++ 0x20%N :: c ++ 0x20%N :: d).
    rewrite read_plain_word by (try discriminate; auto using keyword_plain).
    rewrite read_plain_word by (try discriminate; auto using keyword_plain).
    rewrite !read_plain_word by assumption.
    rewrite read_last_word by assumption.
    reflexivity. }
  rewrite Hsplit. reflexivity.
Qed.

(** The header of a change to the file [release notes.txt]. *)
Lemma header_with_blanks_takes_fourth_word_witness :
  parse_diff_line {| current_path := None; new_line := None; rows := [] |}
    (lit "diff --git release notes.txt release notes.txt")
  = Ok {| current_path := Some (lit "notes.txt"); new_line := None;
          rows := [] |}.
Proof.
  apply (header_with_blanks_takes_fourth_word
           {| current_path := None; new_line := None; rows := [] |}
           (lit "release") (lit "notes.txt") (lit "release") (lit "notes.txt")).
  1-4: discriminate.
  all: repeat constructor; unfold plain; simpl; lia.
Defined.

(** *** Clean text and file scans *)

Section FilesMore.

Context {L : Library} {W : World}.

Lemma column_findings_none (p : str) (i : Z) (ln : str) (cols : list (Z * char)) :
  column_findings p i ln cols = [] <->
  Forall (fun jc => _is_forbidden_char (snd jc) = false) cols.
Proof.
  induction cols as [|[j ch] cols IH]; simpl.
  - split; [constructor | reflexivity].
  - fold (column_findings p i ln cols).
    destruct (_is_forbidden_char ch) eqn:E; simpl.
    + split; [discriminate|]. intros H. inversion H; subst. simpl in *.
      congruence.
    + rewrite IH. split; [now constructor|]. intros H. now inversion H.
Qed.

Lemma enumerate_snd {A} (P : A -> Prop) (xs : list A) :
  forall start,
    Forall (fun ix => P (snd ix)) (enumerate xs start) <-> Forall P xs.
Proof.
  induction xs as [|x xs IH]; intros start; simpl.
  - split; constructor.
  - split; intros H; inversion H; subst; constructor; auto;
      now apply (IH (start + 1)).
Qed.

(** X19: a scan finds nothing exactly when no character of any line of
    the text is forbidden. *)
Theorem scan_text_clean_iff (p text : str) (start : Z) :
  _scan_text p text start = [] <->
  Forall (Forall (fun ch => _is_forbidden_char ch = false)) (splitlines text).
Proof.
  rewrite scan_text_by_lines.
  generalize (splitlines text) start. intros lines.
  induction lines as [|ln lines IH]; intros s; simpl.
  - split; [constructor | reflexivity].
  - split.
    + intros H. apply app_eq_nil in H. destruct H as [Hrow Hrest].
      constructor.
      * apply column_findings_none in Hrow.
        now apply (enumerate_snd (fun ch => _is_forbidden_char ch = false)) in Hrow.
      * now apply (IH (s + 1)).
    + intros H. inversion H as [|? ? Hrow Hrest]; subst.
      apply (enumerate_snd (fun ch => _is_forbidden_char ch = false) ln 1) in Hrow.
      apply (column_findings_none p s ln) in Hrow. rewrite Hrow.
      now apply IH.
Qed.

(** X20: a file scan that returns is the scan of a file under the root:
    its findings carry the path relative to the root, and there are some
    only when the file could be read and did not look binary; they are
    then the findings of the decoded text from line 1. *)
Theorem scan_file_findings (root file : str) (fs : list Finding) :
  _scan_file root file = Ok fs ->
  exists rel,
    relative_posix root file = Some rel
    /\ Forall (fun f => path f = rel) fs
    /\ (fs <> [] ->
        exists data,
          read_bytes file = Some data
          /\ _is_probably_binary data = Ok false
          /\ fs = _scan_text rel (decode_utf8_replace data) 1).
Proof.
  unfold _scan_file. intros H.
  destruct (relative_posix root file) as [rel|]; [|discriminate].
  exists rel. split; [reflexivity|].
  destruct (read_bytes file) as [data|].
  - destruct (is_probably_binary_returns data) as [b Hb]. rewrite Hb in H.
    simpl in H. destruct b; injection H as <-.
    + split; [constructor | intros Hne; contradiction].
    + split.
      * apply Forall_forall. intros f Hf. unfold _scan_text in Hf.
        apply in_flat_map in Hf. destruct Hf as ([i ln] & _ & Hf).
        apply in_flat_map in Hf. destruct Hf as ([j ch] & _ & Hf).
        destruct (_is_forbidden_char ch); simpl in Hf; [|contradiction].
        destruct Hf as [<- | []]. reflexivity.
      * intros _. exists data. auto.
  - injection H as <-. split; [constructor | intros Hne; contradiction].
Qed.

End FilesMore.

(** The sample file is read, is no binary, and is reported under its
    relative path. *)
Lemma scan_file_findings_witness :
  exists fs rel,
    @_scan_file Sample.library Sample.one_file (lit "/repo")
      (lit "/repo/notes.txt") = Ok fs
    /\ fs <> []
    /\ @relative_posix Sample.one_file (lit "/repo") (lit "/repo/notes.txt")
       = Some rel
    /\ rel = lit "notes.txt"
    /\ Forall (fun f => path f = rel) fs.
Proof.
  destruct (@scan_file_findings Sample.library Sample.one_file (lit "/repo")
              (lit "/repo/notes.txt") _ ltac:(vm_compute; reflexivity))
    as (rel & Hrel & Hpath & _).
  eexists. exists rel. split; [vm_compute; reflexivity|].
  split; [discriminate|]. split; [exact Hrel|]. split; [|exact Hpath].
  vm_compute in Hrel. now injection Hrel as <-.
Defined.
